(** * repo_structure: a filtered, depth-bounded directory tree

    Shallow embedding of [repo_structure.py]: the exclusion lists, the
    [.gitignore] check, the recursive [_build_tree] and the entry point
    [get_repo_structure], over an explicit snapshot of the file system.

    Python values are modelled as follows.
    - [str] is [string], the UTF-8 bytes of the text, and [<] on [str] is
      the lexicographic order, which is the same on code points and on
      their UTF-8 bytes; [str.lower] follows the case tables of Unicode,
      which are no part of the sources: it is an interface ([PyStr]).
    - [int] is [Z]; an optional argument defaulting to [None] is an [option].
    - a [pathlib.Path] is its anchor followed by its names.
    - the dict returned for a node is a [Node]; the key ["children"] is
      present exactly when the field [children] is [Some _].
    - a raised exception is the [Raise] case of [result].
    - the two libraries the module calls into, [pathspec] and [git], are
      interfaces ([PathSpecLib], [GitClient]).

    The snapshot does not change during a run.  The operating-system
    errors it can produce are the refusal to list a directory and the
    failure to open or decode a file; the type tests ([is_dir], [is_file],
    [is_symlink], [exists]) always answer.  The lines of a file are held
    without their line ends. *)

From Stdlib Require Import String Ascii List ZArith NArith Lia Bool.
From Stdlib Require Import Permutation Sorted.
Import ListNotations.
Open Scope string_scope.
Open Scope list_scope.
Open Scope Z_scope.

(* ================================================================== *)
(** * Exceptions *)

Inductive Exn : Set :=
| ValueError             (* clone_repo_with_progress, Path.relative_to *)
| PermissionError        (* Path.iterdir, Path.open *)
| UnicodeDecodeError     (* readlines on a file that is not valid text *)
| GitIgnorePatternError  (* PathSpec.from_lines on an invalid rule *)
| GitCommandError.       (* git.Repo.clone_from *)

Inductive result (A : Type) : Type :=
| Ok (a : A)
| Raise (e : Exn).

Arguments Ok {A} a.
Arguments Raise {A} e.

Definition bind {A B : Type} (m : result A) (k : A -> result B) : result B :=
  match m with
  | Ok a => k a
  | Raise e => Raise e
  end.

Notation "x <- m ;; k" := (bind m (fun x => k))
  (at level 61, m at next level, right associativity).

(* ================================================================== *)
(** * The file-system snapshot *)

(** What sits at a path.  A file carries what opening it and reading its
    lines gives: the lines, or the exception raised.  A directory carries
    its listing in the order [iterdir] yields it; [readable = false] is a
    directory whose listing is denied, on which [iterdir] raises
    [PermissionError]. *)
#[local] Unset Elimination Schemes.
Inductive FsNode : Type :=
| FsFile (content : result (list string))
| FsDir (readable : bool) (entries : list (string * FsNode))
| FsSymlink (target : option FsNode)
| FsOther.
#[local] Set Elimination Schemes.

(** A [pathlib.Path]: the anchor (["/"] for an absolute path, empty for
    a relative one) and the names below it. *)
Record Path : Type := {
  anchor : string;
  tail : list string
}.

(** [Path.parts]: the anchor, when there is one, is the first part. *)
Definition parts (p : Path) : list string :=
  if String.eqb (anchor p) "" then tail p else anchor p :: tail p.

(** [Path.name]: the last name, empty when there is none. *)
Definition path_name (p : Path) : string := last (tail p) "".

(** [p / nm]. *)
Definition joinpath (p : Path) (nm : string) : Path :=
  {| anchor := anchor p; tail := tail p ++ [nm] |}.

(** The path reached from [root] through the names [rel]. *)
Definition under (root : Path) (rel : list string) : Path :=
  {| anchor := anchor root; tail := tail root ++ rel |}.

(** [Path.is_symlink] looks at the entry itself. *)
Definition is_symlink (e : FsNode) : bool :=
  match e with
  | FsSymlink _ => true
  | _ => false
  end.

(** [exists], [is_file] and [is_dir] follow symbolic links; a dangling
    link resolves to nothing. *)
Fixpoint resolve (e : FsNode) : option FsNode :=
  match e with
  | FsSymlink None => None
  | FsSymlink (Some t) => resolve t
  | _ => Some e
  end.

Definition is_file (e : FsNode) : bool :=
  match resolve e with
  | Some (FsFile _) => true
  | _ => false
  end.

Definition is_dir (e : FsNode) : bool :=
  match resolve e with
  | Some (FsDir _ _) => true
  | _ => false
  end.

(** The state of a path that may be missing altogether. *)
Definition path_exists (st : option FsNode) : bool :=
  match st with
  | Some e => match resolve e with Some _ => true | None => false end
  | None => false
  end.

Fixpoint lookup (nm : string) (es : list (string * FsNode)) : option FsNode :=
  match es with
  | [] => None
  | (n, e) :: es' => if String.eqb n nm then Some e else lookup nm es'
  end.

(** [st / nm]: the entry called [nm] under the path whose state is [st]. *)
Definition child_state (st : option FsNode) (nm : string) : option FsNode :=
  match st with
  | Some e =>
      match resolve e with
      | Some (FsDir _ es) => lookup nm es
      | _ => None
      end
  | None => None
  end.

(** What [_build_tree] is handed for a path in state [st]: a missing path
    answers [False] to [is_symlink], [is_file] and [is_dir], as an entry of
    another kind does. *)
Definition entry_at (st : option FsNode) : FsNode :=
  match st with
  | Some e => e
  | None => FsOther
  end.

(** [Path.relative_to]: raises [ValueError] unless [root] is a leading
    part of the path; the result is the list of the remaining names. *)
Fixpoint strip_prefix (names root : list string) {struct root}
    : result (list string) :=
  match root, names with
  | [], _ => Ok names
  | r :: root', s :: names' =>
      if String.eqb r s then strip_prefix names' root' else Raise ValueError
  | _ :: _, [] => Raise ValueError
  end.

Definition relative_to (p root : Path) : result (list string) :=
  if String.eqb (anchor p) (anchor root)
  then strip_prefix (tail p) (tail root)
  else Raise ValueError.

(** [str] of a relative path. *)
Definition rel_str (rel : list string) : string :=
  match rel with
  | [] => "."
  | _ => String.concat "/" rel
  end.

(* ================================================================== *)
(** * Output nodes *)

Inductive NodeType : Set := File | Directory.

#[local] Unset Elimination Schemes.
Inductive Node : Type :=
| mkNode (name : string) (type : NodeType) (children : option (list Node)).
#[local] Set Elimination Schemes.

Definition name (n : Node) : string := let (s, _, _) := n in s.
Definition type (n : Node) : NodeType := let (_, t, _) := n in t.
Definition children (n : Node) : option (list Node) := let (_, _, c) := n in c.

(* ================================================================== *)
(** * Exclude pattern constants *)

Definition DEFAULT_EXCLUDES : list string := [".git"; "node_modules"; "venv"].

Definition PYTHON_EXCLUDES : list string :=
  ["__pycache__"; "*.pyc"; ".idea"; ".vscode"].

Definition NODE_EXCLUDES : list string :=
  ["dist"; "build"; ".idea"; ".vscode"; "coverage"].

Definition JAVA_EXCLUDES : list string :=
  ["target"; "out"; "build"; ".idea"; ".vscode"].

(** [list(set(xs))]: the members of [xs], each once.  Python leaves the
    order unspecified; the module only ever tests membership. *)
Definition list_set (xs : list string) : list string := nodup string_dec xs.

Definition PROJECT_EXCLUDES (kind : string) : option (list string) :=
  if String.eqb kind "python" then Some (list_set (DEFAULT_EXCLUDES ++ PYTHON_EXCLUDES))
  else if String.eqb kind "node" then Some (list_set (DEFAULT_EXCLUDES ++ NODE_EXCLUDES))
  else if String.eqb kind "java" then Some (list_set (DEFAULT_EXCLUDES ++ JAVA_EXCLUDES))
  else None.

(** [part in exclude_patterns]. *)
Definition mem (part : string) (xs : list string) : bool :=
  existsb (String.eqb part) xs.

(* ================================================================== *)
(** * Sorting by lower-cased name *)

Definition lower_ascii (c : ascii) : ascii :=
  let n := N_of_ascii c in
  if ((65 <=? n) && (n <=? 90))%N then ascii_of_N (n + 32) else c.

Fixpoint ascii_lower (s : string) : string :=
  match s with
  | EmptyString => EmptyString
  | String c s' => String (lower_ascii c) (ascii_lower s')
  end.

Definition is_ascii (s : string) : bool :=
  forallb (fun c => (N_of_ascii c <? 128)%N) (list_ascii_of_string s).

(** [str.lower]: whatever the case tables of Unicode say, it lower-cases
    the letters A to Z of a text without any other character than those
    of ASCII. *)
Class PyStr : Type := {
  lower : string -> string;
  lower_on_ascii : forall s, is_ascii s = true -> lower s = ascii_lower s
}.

(** [str.lower] on texts written with the characters up to U+00FF: beside
    A to Z, the capital letters U+00C0 to U+00DE but the sign U+00D7,
    which UTF-8 writes as the byte 195 followed by a byte from 128 to 158,
    go to the letter 32 places further. *)
Fixpoint latin1_lower (s : string) : string :=
  match s with
  | EmptyString => EmptyString
  | String c s' =>
      if (N_of_ascii c =? 195)%N then
        match s' with
        | EmptyString => String c EmptyString
        | String d s'' =>
            let n := N_of_ascii d in
            if ((128 <=? n) && (n <=? 158) && negb (n =? 151))%N
            then String c (String (ascii_of_N (n + 32)) (latin1_lower s''))
            else String c (String d (latin1_lower s''))
        end
      else String (lower_ascii c) (latin1_lower s')
  end.

Lemma latin1_lower_on_ascii (s : string) :
  is_ascii s = true -> latin1_lower s = ascii_lower s.
Proof.
  unfold is_ascii. induction s as [|c s IH]; simpl; [reflexivity|].
  rewrite andb_true_iff. intros [Hc Hs].
  apply N.ltb_lt in Hc.
  destruct (N.eqb_spec (N_of_ascii c) 195) as [E|_]; [lia|].
  now rewrite IH.
Qed.

Definition latin1 : PyStr := {|
  lower := latin1_lower;
  lower_on_ascii := latin1_lower_on_ascii
|}.

Section SortByKey.
Variable A : Type.
Variable key : A -> string.

(** [list.sort(key=...)] is stable and compares keys with [<] only: an
    element is placed after the elements whose key is strictly smaller and
    before the others, so elements with equal keys keep their order. *)
Fixpoint insert (x : A) (l : list A) : list A :=
  match l with
  | [] => [x]
  | y :: l' =>
      if String.ltb (key y) (key x) then y :: insert x l' else x :: l
  end.

Fixpoint sort (l : list A) : list A :=
  match l with
  | [] => []
  | x :: l' => insert x (sort l')
  end.

End SortByKey.

Arguments insert {A} key x l.
Arguments sort {A} key l.

(* ================================================================== *)
(** * The libraries the module calls into *)

(** [pathspec]: [PathSpec.from_lines("gitwildmatch", lines)] compiles the
    lines of an ignore file, or raises on a line that is no rule;
    [PathSpec.match_file] tests a path string. *)
Class PathSpecLib : Type := {
  PathSpec : Type;
  from_lines : list string -> result PathSpec;
  match_file : PathSpec -> string -> bool
}.

(** [git.Repo.clone_from(url, path)]: from the state of [path] before the
    call either raises or leaves a new state at [path]. *)
Record GitClient : Type := {
  clone_from : string -> option FsNode -> result (option FsNode)
}.

(* ================================================================== *)
(** * Ignore-file rules *)

Module GitWildMatch.

Local Open Scope char_scope.

(** Modelled from the spec: the glob language of an ignore-file rule, which
    the pathspec library (not part of the sources) implements.  Within one
    segment [*] is any run of characters, [?] any one character, [[...]] a
    character class (ranges [a-z], negated by a leading [!] or [^]); a
    segment [**] stands for any number of whole segments. *)
Inductive Glob : Type :=
| Star
| Quest
| Lit (c : ascii)
| Class (negated : bool) (ranges : list (ascii * ascii)).

(** Modelled from the spec: one segment of a rule, [**] or a glob for a
    single name. *)
Inductive Seg : Type :=
| AnyDirs
| Name (g : list Glob).

(** Modelled from the spec: a compiled rule with its three markers. *)
Record Rule : Type := {
  negated : bool;    (* leading [!] *)
  anchored : bool;   (* leading [/], or a [/] inside the pattern *)
  dir_only : bool;   (* trailing [/] *)
  segs : list Seg
}.

(** Modelled from the spec: reading a glob, outside or inside a character
    class. *)
Inductive Mode : Type :=
| Plain
| InClass (neg : bool) (acc : list (ascii * ascii)).

(** Modelled from the spec: the glob written in one piece of a rule. *)
Fixpoint parse_glob (m : Mode) (s : list ascii) {struct s} : list Glob :=
  match s with
  | [] => []
  | c :: r =>
      match m with
      | Plain =>
          if Ascii.eqb c "*" then Star :: parse_glob Plain r
          else if Ascii.eqb c "?" then Quest :: parse_glob Plain r
          else if Ascii.eqb c "[" && existsb (Ascii.eqb "]") r then
            match r with
            | n :: r' =>
                if Ascii.eqb n "!" || Ascii.eqb n "^"
                then parse_glob (InClass true []) r'
                else parse_glob (InClass false []) r
            | [] => []
            end
          else Lit c :: parse_glob Plain r
      | InClass neg acc =>
          if Ascii.eqb c "]" then Class neg (rev acc) :: parse_glob Plain r
          else
            match r with
            | d :: hi :: r' =>
                if Ascii.eqb d "-" && negb (Ascii.eqb hi "]")
                then parse_glob (InClass neg ((c, hi) :: acc)) r'
                else parse_glob (InClass neg ((c, c) :: acc)) r
            | _ => parse_glob (InClass neg ((c, c) :: acc)) r
            end
      end
  end.

(** Modelled from the spec: membership in a character class. *)
Definition in_class (c : ascii) (ranges : list (ascii * ascii)) : bool :=
  existsb (fun r => Ascii.leb (fst r) c && Ascii.leb c (snd r)) ranges.

(** Modelled from the spec: a glob against one whole name. *)
Fixpoint glob_match (g : list Glob) (s : list ascii) {struct g} : bool :=
  match g with
  | [] => match s with [] => true | _ => false end
  | Star :: g' =>
      (fix from (s : list ascii) : bool :=
         glob_match g' s ||
         match s with
         | [] => false
         | _ :: s' => from s'
         end) s
  | Quest :: g' =>
      match s with
      | _ :: s' => glob_match g' s'
      | [] => false
      end
  | Lit c :: g' =>
      match s with
      | c' :: s' => Ascii.eqb c c' && glob_match g' s'
      | [] => false
      end
  | Class neg ranges :: g' =>
      match s with
      | c' :: s' => xorb neg (in_class c' ranges) && glob_match g' s'
      | [] => false
      end
  end.

(** Modelled from the spec: the segments of a rule against a whole list
    of names. *)
Fixpoint segs_match (pat : list Seg) (path : list (list ascii)) {struct pat} : bool :=
  match pat with
  | [] => match path with [] => true | _ => false end
  | AnyDirs :: pat' =>
      (fix from (path : list (list ascii)) : bool :=
         segs_match pat' path ||
         match path with
         | [] => false
         | _ :: path' => from path'
         end) path
  | Name g :: pat' =>
      match path with
      | s :: path' => glob_match g s && segs_match pat' path'
      | [] => false
      end
  end.

(** Modelled from the spec: the pieces of [s] between separators. *)
Fixpoint split_on (sep : ascii) (s : list ascii) : list (list ascii) :=
  match s with
  | [] => [[]]
  | c :: s' =>
      if Ascii.eqb c sep then [] :: split_on sep s'
      else
        match split_on sep s' with
        | piece :: pieces => (c :: piece) :: pieces
        | [] => [[c]]
        end
  end.

(** Modelled from the spec: an empty piece, as left by a leading or a
    trailing separator. *)
Definition is_empty (s : list ascii) : bool :=
  match s with [] => true | _ => false end.

(** Modelled from the spec: the segment written in one piece. *)
Definition parse_seg (piece : list ascii) : Seg :=
  match piece with
  | ["*"; "*"] => AnyDirs
  | _ => Name (parse_glob Plain piece)
  end.

(** Modelled from the spec: one line of the ignore file; [None] for a
    blank line or a comment. *)
Definition parse_rule (line : string) : option Rule :=
  match list_ascii_of_string line with
  | [] => None
  | c :: body =>
      if Ascii.eqb c "#" then None
      else
        let neg := Ascii.eqb c "!" in
        let pattern := if neg then body else c :: body in
        let pieces := split_on "/" pattern in
        let names := filter (fun p => negb (is_empty p)) pieces in
        match names with
        | [] => None
        | _ =>
            Some {| negated := neg;
                    anchored := is_empty (hd [] pieces)
                                || (1 <? Z.of_nat (List.length names))%Z;
                    dir_only := is_empty (last pieces []);
                    segs := map parse_seg names |}
        end
  end.

(** Modelled from the spec: the rules [PathSpec.from_lines] of the
    pathspec library, which is not part of the sources, compiles.  Every
    line that is neither blank nor a comment becomes one rule, in file
    order. *)
Fixpoint compile (lines : list string) : list Rule :=
  match lines with
  | [] => []
  | line :: lines' =>
      match parse_rule line with
      | Some r => r :: compile lines'
      | None => compile lines'
      end
  end.

(** Modelled from the spec: the non-empty leading parts of a path,
    shortest first. *)
Fixpoint prefixes (path : list (list ascii)) : list (list (list ascii)) :=
  match path with
  | [] => []
  | s :: path' => [s] :: map (cons s) (prefixes path')
  end.

(** Modelled from the spec: a rule applies to a path when its pattern
    matches the path or a directory above it; a directory-only rule needs the matched part to be
    a directory, that is a proper leading part of the path. *)
Definition applies (r : Rule) (path : list (list ascii)) : bool :=
  let pat := if anchored r then segs r else AnyDirs :: segs r in
  let candidates :=
    if dir_only r then removelast (prefixes path) else prefixes path in
  existsb (segs_match pat) candidates.

(** Modelled from the spec: a line that negates nothing, [!] alone or
    followed by separators only, is no rule. *)
Definition invalid (line : string) : bool :=
  match list_ascii_of_string line with
  | c :: body =>
      Ascii.eqb c "!" &&
      forallb is_empty (split_on "/" body)
  | [] => false
  end.

(** Modelled from the spec: [PathSpec.from_lines] of the pathspec library
    on the lines of a file: the rules in file order, or
    [GitIgnorePatternError] when a line is no rule. *)
Definition from_lines (lines : list string) : result (list Rule) :=
  if existsb invalid lines then Raise GitIgnorePatternError
  else Ok (compile lines).

(** Modelled from the spec: [PathSpec.match_file] of the pathspec library,
    which is not part of the sources.  The rules are applied in file order
    and the last one that applies decides: a plain rule ignores the path, a
    negated rule keeps it. *)
Definition match_rules (rules : list Rule) (file : string) : bool :=
  let path := split_on "/" (list_ascii_of_string file) in
  fold_left (fun matched r => if applies r path then negb (negated r) else matched)
            rules false.

End GitWildMatch.

(** Modelled from the spec: the pathspec library with gitwildmatch rules,
    which is not part of the sources. *)
#[export] Instance gitwildmatch : PathSpecLib := {|
  PathSpec := list GitWildMatch.Rule;
  from_lines := GitWildMatch.from_lines;
  match_file := GitWildMatch.match_rules
|}.

(* ================================================================== *)
(** * Repo structure logic *)

Section RepoStructure.
Context {Str : PyStr} {L : PathSpecLib}.

(** [with gitignore_file.open("r") as f: f.readlines()]: the lines, or
    the exception of [open] or of the decoding. *)
Definition readlines (e : FsNode) : result (list string) :=
  match resolve e with
  | Some (FsFile content) => content
  | _ => Ok []
  end.

(** [_get_pathspec]: [st] is the state of [repo_path]. *)
Definition _get_pathspec (st : option FsNode) : result (option PathSpec) :=
  match child_state st ".gitignore" with
  | Some gitignore_file =>
      if is_file gitignore_file
      then
        gitignore_lines <- readlines gitignore_file ;;
        ps <- from_lines gitignore_lines ;;
        Ok (Some ps)
      else Ok None
  | None => Ok None
  end.

Definition _is_ignored (path : Path) (pathspec_obj : option PathSpec)
    (repo_root : Path) : result bool :=
  match pathspec_obj with
  | None => Ok false
  | Some ps =>
      rel <- relative_to path repo_root ;;
      Ok (match_file ps (rel_str rel))
  end.

(** One entry of a listing together with the recursive call made for it:
    its name, whether [entry.is_dir()] holds, and what [_build_tree]
    returns on it. *)
Definition Visit : Type := string * bool * result (option Node).

Definition visit_name (v : Visit) : string := fst (fst v).
Definition visit_is_dir (v : Visit) : bool := snd (fst v).
Definition visit_call (v : Visit) : result (option Node) := snd v.
Definition visit_key (v : Visit) : string := lower (visit_name v).

(** The loop [for d in ...: child_node = _build_tree(d, ...); if child_node
    is not None: children.append(child_node)]; the first call that raises
    ends it. *)
Fixpoint gather (vs : list Visit) : result (list Node) :=
  match vs with
  | [] => Ok []
  | v :: vs' =>
      child_node <- visit_call v ;;
      rest <- gather vs' ;;
      Ok (match child_node with
          | Some n => n :: rest
          | None => rest
          end)
  end.

(** Lines 228-263 on the visits of a listing: split on [is_dir], sort both
    parts by lower-cased name, run the directories then the others. *)
Definition gather_children (visits : list Visit) : result (list Node) :=
  let dirs := sort visit_key (filter visit_is_dir visits) in
  let files := sort visit_key (filter (fun v => negb (visit_is_dir v)) visits) in
  from_dirs <- gather dirs ;;
  from_files <- gather files ;;
  Ok (from_dirs ++ from_files).

Section BuildTree.
Variable repo_root : Path.
Variable pathspec_obj : option PathSpec.
Variable max_depth : option Z.
Variable exclude_patterns : list string.

(** Line 196: [max_depth is not None and current_depth > max_depth]. *)
Definition depth_cut (current_depth : Z) : bool :=
  match max_depth with
  | Some m => m <? current_depth
  | None => false
  end.

(** Line 200: [any(part in exclude_patterns for part in current_path.parts)]. *)
Definition is_excluded (current_path : Path) : bool :=
  existsb (fun part => mem part exclude_patterns) (parts current_path).

(** Line 227: [max_depth is None or current_depth < max_depth]. *)
Definition gathers (current_depth : Z) : bool :=
  match max_depth with
  | None => true
  | Some m => current_depth <? m
  end.

(** [_build_tree]; [entry] is what the snapshot holds at [current_path].
    The recursion is on the snapshot, so every entry of a listing is paired
    with its recursive call before the listing is split and sorted; the
    calls are then consumed in the sorted order (the lemma [_build_tree_dir]
    gives the equation in the order of the source). *)
Fixpoint _build_tree (current_path : Path) (entry : FsNode)
    (current_depth : Z) {struct entry} : result (option Node) :=
  if depth_cut current_depth then Ok None else
  if is_excluded current_path then Ok None else
  ignored <- _is_ignored current_path pathspec_obj repo_root ;;
  if (ignored : bool) then Ok None else
  if is_symlink entry then Ok None else
  match entry with
  | FsFile _ => Ok (Some (mkNode (path_name current_path) File None))
  | FsDir readable entries =>
      if gathers current_depth then
        if readable then
          let visits :=
            map (fun ne : string * FsNode =>
                   (fst ne, is_dir (snd ne),
                    _build_tree (joinpath current_path (fst ne)) (snd ne)
                      (current_depth + 1)))
                entries in
          children <- gather_children visits ;;
          Ok (Some (mkNode (path_name current_path) Directory
                      (match children with
                       | [] => None
                       | _ => Some children
                       end)))
        else Raise PermissionError
      else Ok (Some (mkNode (path_name current_path) Directory None))
  | _ => Ok None
  end.

(** The visit of one entry [(name, entry)] of the listing of
    [current_path]. *)
Definition visit (current_path : Path) (current_depth : Z)
    (ne : string * FsNode) : Visit :=
  (fst ne, is_dir (snd ne),
   _build_tree (joinpath current_path (fst ne)) (snd ne) (current_depth + 1)).

End BuildTree.

(** [_clone_repo_if_needed] and [clone_repo_with_progress]; [st] is the
    state of [clone_path] before the call, the result its state after. *)
Definition clone_repo_with_progress (git : GitClient) (github_url : string)
    (st : option FsNode) (token : option string) : result (option FsNode) :=
  match token with
  | Some (String c tok) =>
      if String.prefix "https://" github_url then
        let url_without_prefix :=
          substring 8 (String.length github_url - 8) github_url in
        let authed_url :=
          ("https://" ++ String c tok ++ "@" ++ url_without_prefix)%string in
        clone_from git authed_url st
      else Raise ValueError
  | _ => clone_from git github_url st
  end.

Definition _clone_repo_if_needed (git : GitClient) (github_url : string)
    (st : option FsNode) (token : option string) : result (option FsNode) :=
  if path_exists st && path_exists (child_state st ".git")
  then Ok st
  else clone_repo_with_progress git github_url st token.

(** [get_repo_structure]; [clone_path] is the path as given by the caller
    and [st] what the snapshot holds there before the call. *)
Definition merged_excludes (exclude_patterns : option (list string)) : list string :=
  match exclude_patterns with
  | None => DEFAULT_EXCLUDES
  | Some extra => list_set (extra ++ DEFAULT_EXCLUDES)
  end.

Definition build_root (repo_path : Path) (st : option FsNode)
    (pathspec_obj : option PathSpec) (max_depth : option Z)
    (exclude_patterns : list string) : result (option Node) :=
  _build_tree repo_path pathspec_obj max_depth exclude_patterns
    repo_path (entry_at st) 0.

Definition get_repo_structure (git : GitClient) (github_url : string)
    (clone_path : Path) (st : option FsNode) (token : option string)
    (max_depth : option Z) (exclude_patterns : option (list string))
    : result (option Node) :=
  let exclude_patterns := merged_excludes exclude_patterns in
  st' <- _clone_repo_if_needed git github_url st token ;;
  pathspec_obj <- _get_pathspec st' ;;
  build_root clone_path st' pathspec_obj max_depth exclude_patterns.

End RepoStructure.


(* ================================================================== *)
(** * Clone progress *)

(** [clone_progress.py].  The alive-progress handle is kept by the number
    of times it has been called; what [print] writes is appended to
    [stdout]. *)
Record CloneProgress : Type := {
  _bar : option nat;
  stdout : list string
}.

(** [CloneProgress.__init__]: no bar yet; [out] is what has been printed
    so far. *)
Definition CloneProgress_init (out : list string) : CloneProgress :=
  {| _bar := None; stdout := out |}.

(** [CloneProgress.set_bar]. *)
Definition set_bar (self : CloneProgress) (bar : nat) : CloneProgress :=
  {| _bar := Some bar; stdout := stdout self |}.

(** One progress report of GitPython: the arguments of [update]. *)
Record ProgressReport : Type := {
  op_code : Z;
  cur_count : Z;
  max_count : option Z;
  message : string
}.

(** [CloneProgress.update]: the bar, when there is one, is called once;
    a non-empty message is printed. *)
Definition update (self : CloneProgress) (r : ProgressReport) : CloneProgress :=
  let bar' :=
    match _bar self with
    | Some calls => Some (S calls)
    | None => None
    end in
  let out' :=
    match message r with
    | EmptyString => stdout self
    | msg => stdout self ++ [msg]
    end in
  {| _bar := bar'; stdout := out' |}.

(** The reports GitPython hands to [update], one after the other. *)
Definition updates (self : CloneProgress) (rs : list ProgressReport) : CloneProgress :=
  fold_left update rs self.

(** The messages of the reports that get printed. *)
Definition printed (rs : list ProgressReport) : list string :=
  filter (fun m => negb (String.eqb m "")) (map message rs).

(* ================================================================== *)
(** * Vocabulary of the properties *)

(** The visits consumed by [gather_children], in the order consumed. *)
Definition consumed {Str : PyStr} (visits : list Visit) : list Visit :=
  sort visit_key (filter visit_is_dir visits) ++
  sort visit_key (filter (fun v => negb (visit_is_dir v)) visits).

(** Ascending by key. *)
Definition key_le {A : Type} (key : A -> string) (x y : A) : Prop :=
  String.leb (key x) (key y) = true.

(** Every node of a tree satisfies [P]. *)
Inductive TreeAll (P : Node -> Prop) : Node -> Prop :=
| TreeAll_node (n : Node) :
    P n ->
    (forall cs c, children n = Some cs -> In c cs -> TreeAll P c) ->
    TreeAll P n.

(** Ascending by name, letter case ignored. *)
Definition case_le {Str : PyStr} (a b : Node) : Prop :=
  String.leb (lower (name a)) (lower (name b)) = true.

(** The children of [n], when present, are directories then files, each
    group ascending by name. *)
Definition children_ordered {Str : PyStr} (n : Node) : Prop :=
  forall cs, children n = Some cs ->
    exists ds fs,
      cs = ds ++ fs /\
      Forall (fun c => type c = Directory) ds /\
      Forall (fun c => type c = File) fs /\
      StronglySorted case_le ds /\
      StronglySorted case_le fs.

Definition file_is_leaf (n : Node) : Prop :=
  type n = File -> children n = None.

(** The three filters of lines 199-209 let the entry [e] at [p] through. *)
Definition passes_filters {L : PathSpecLib} (repo_root : Path)
    (pathspec_obj : option PathSpec) (exclude_patterns : list string)
    (p : Path) (e : FsNode) : Prop :=
  is_excluded exclude_patterns p = false /\
  _is_ignored p pathspec_obj repo_root = Ok false /\
  is_symlink e = false.

Definition listing (e : FsNode) : list (string * FsNode) :=
  match e with
  | FsDir _ entries => entries
  | _ => []
  end.

(** [Emitted p e n]: the node [n] stands for the entry [e] at path [p],
    which passed the three filters, and every child of [n] stands in the
    same way for an entry of the listing of [e]. *)
#[local] Unset Elimination Schemes.
Inductive Emitted {L : PathSpecLib} (repo_root : Path)
    (pathspec_obj : option PathSpec) (exclude_patterns : list string)
    : Path -> FsNode -> Node -> Prop :=
| Emitted_node (p : Path) (e : FsNode) (n : Node) :
    passes_filters repo_root pathspec_obj exclude_patterns p e ->
    name n = path_name p ->
    (forall cs c, children n = Some cs -> In c cs ->
       exists ne, In ne (listing e) /\
         Emitted repo_root pathspec_obj exclude_patterns
           (joinpath p (fst ne)) (snd ne) c) ->
    Emitted repo_root pathspec_obj exclude_patterns p e n.
#[local] Set Elimination Schemes.

(** The call on the entry [e] at [p] and depth [d] gets to the loops of
    lines 241-263: it is not cut, [e] passes the filters, is a directory
    that can be listed, and the depth test of line 227 holds. *)
Definition enumerates {L : PathSpecLib} (repo_root : Path)
    (pathspec_obj : option PathSpec) (max_depth : option Z)
    (exclude_patterns : list string) (p : Path) (e : FsNode) (d : Z) : Prop :=
  depth_cut max_depth d = false /\
  passes_filters repo_root pathspec_obj exclude_patterns p e /\
  (exists entries, e = FsDir true entries) /\
  gathers max_depth d = true.

(** The calls of [_build_tree] that a run started by [get_repo_structure]
    on the root entry [e0] can make: the first one, at the root and depth
    0, and from a call that gets to the loops one call per entry of the
    listing, one level deeper.  (A run that raises stops early and makes
    fewer calls.) *)
Inductive Invoked {L : PathSpecLib} (repo_root : Path)
    (pathspec_obj : option PathSpec) (max_depth : option Z)
    (exclude_patterns : list string) (e0 : FsNode)
    : Path -> FsNode -> Z -> Prop :=
| Invoked_root :
    Invoked repo_root pathspec_obj max_depth exclude_patterns e0 repo_root e0 0
| Invoked_child (p : Path) (e : FsNode) (d : Z) (ne : string * FsNode) :
    Invoked repo_root pathspec_obj max_depth exclude_patterns e0 p e d ->
    enumerates repo_root pathspec_obj max_depth exclude_patterns p e d ->
    In ne (listing e) ->
    Invoked repo_root pathspec_obj max_depth exclude_patterns e0
      (joinpath p (fst ne)) (snd ne) (d + 1).

(** Two snapshots of the same tree of entries that may list the entries of
    a directory in different orders. *)
Inductive same_snapshot : FsNode -> FsNode -> Prop :=
| same_entry (e : FsNode) : same_snapshot e e
| same_dir (readable : bool) (es es' : list (string * FsNode)) :
    same_listing es es' ->
    same_snapshot (FsDir readable es) (FsDir readable es')
with same_listing : list (string * FsNode) -> list (string * FsNode) -> Prop :=
| same_nil : same_listing [] []
| same_cons (nm : string) (e e' : FsNode) (es es' : list (string * FsNode)) :
    same_snapshot e e' -> same_listing es es' ->
    same_listing ((nm, e) :: es) ((nm, e') :: es')
| same_swap (x y : string * FsNode) (es : list (string * FsNode)) :
    same_listing (x :: y :: es) (y :: x :: es)
| same_trans (es1 es2 es3 : list (string * FsNode)) :
    same_listing es1 es2 -> same_listing es2 es3 -> same_listing es1 es3.

Scheme same_snapshot_mut := Minimality for same_snapshot Sort Prop
  with same_listing_mut := Minimality for same_listing Sort Prop.

Fixpoint distinct (xs : list string) : bool :=
  match xs with
  | [] => true
  | x :: xs' => negb (mem x xs') && distinct xs'
  end.

Definition entry_key {Str : PyStr} (ne : string * FsNode) : string :=
  lower (fst ne).

(** No directory of the snapshot holds two entries whose names are equal
    once lower-cased. *)
Fixpoint case_distinct {Str : PyStr} (e : FsNode) : bool :=
  match e with
  | FsDir _ entries =>
      distinct (map entry_key entries) &&
      forallb (fun ne => case_distinct (snd ne)) entries
  | _ => true
  end.

(* ================================================================== *)
(** * Example snapshots *)

(** A git client without network: every clone fails. *)
Definition no_git : GitClient :=
  {| clone_from := fun _ _ => Raise GitCommandError |}.

(** A git client that materialises [repo] at a path that does not exist
    yet and refuses any other destination. *)
Definition git_cloning (repo : FsNode) : GitClient :=
  {| clone_from := fun _ st =>
       match st with
       | None => Ok (Some repo)
       | Some _ => Raise GitCommandError
       end |}.

Definition repo_url : string := "https://github.com/org/repo.git".

Definition home_repo : Path :=
  {| anchor := "/"; tail := ["home"; "dev"; "repo"] |}.

Definition venv_repo : Path :=
  {| anchor := "/"; tail := ["home"; "dev"; "venv"; "repo"] |}.

Definition dot_git : string * FsNode :=
  (".git", FsDir true [("HEAD", FsFile (Ok ["ref: refs/heads/main"]))]).

Definition repo_demo : FsNode :=
  FsDir true
    [ ("setup.py", FsFile (Ok []));
      dot_git;
      ("src", FsDir true
                [ ("util.py", FsFile (Ok []));
                  ("Main.py", FsFile (Ok []));
                  ("node_modules", FsDir true [("b.txt", FsFile (Ok []))]);
                  ("core", FsDir true [("io.py", FsFile (Ok []))]) ]);
      ("Docs", FsDir true [("index.md", FsFile (Ok []))]);
      ("latest", FsSymlink (Some (FsDir true []))) ].

Definition repo_logs : FsNode :=
  FsDir true
    [ dot_git;
      (".gitignore", FsFile (Ok ["*.log"; "!keep.log"]));
      ("other.log", FsFile (Ok []));
      ("keep.log", FsFile (Ok [])) ].

Definition repo_locked : FsNode :=
  FsDir true
    [ dot_git;
      ("private", FsDir false [("key.pem", FsFile (Ok []))]);
      ("README.md", FsFile (Ok [])) ].

(** A clone whose ignore file cannot be opened, and one whose ignore file
    holds a line that is no rule. *)
Definition repo_ignore_denied : FsNode :=
  FsDir true
    [ dot_git;
      (".gitignore", FsFile (Raise PermissionError));
      ("README.md", FsFile (Ok [])) ].

Definition repo_ignore_invalid : FsNode :=
  FsDir true
    [ dot_git;
      (".gitignore", FsFile (Ok ["*.log"; "!"]));
      ("README.md", FsFile (Ok [])) ].

Definition repo_case_1 : FsNode :=
  FsDir true [ ("readme", FsFile (Ok [])); ("README", FsFile (Ok [])) ].

Definition repo_case_2 : FsNode :=
  FsDir true [ ("README", FsFile (Ok [])); ("readme", FsFile (Ok [])) ].

(** [repo_demo] with the directories [src] and [Docs] of the root listed
    the other way round, and so the files [util.py] and [Main.py] of
    [src]. *)
Definition repo_demo_relisted : FsNode :=
  FsDir true
    [ ("setup.py", FsFile (Ok []));
      (".git", FsDir true [("HEAD", FsFile (Ok ["ref: refs/heads/main"]))]);
      ("Docs", FsDir true [("index.md", FsFile (Ok []))]);
      ("src", FsDir true
                [ ("Main.py", FsFile (Ok []));
                  ("util.py", FsFile (Ok []));
                  ("node_modules", FsDir true [("b.txt", FsFile (Ok []))]);
                  ("core", FsDir true [("io.py", FsFile (Ok []))]) ]);
      ("latest", FsSymlink (Some (FsDir true []))) ].

(** A directory whose order depends on the lower-casing, of letters
    outside ASCII too, and its tree at [home_repo]. *)
Definition repo_accents : FsNode :=
  FsDir true
    [ ("Zed", FsFile (Ok []));
      ("Éb", FsFile (Ok []));
      ("apple", FsFile (Ok []));
      ("éa", FsFile (Ok []));
      ("Ünit", FsDir true []);
      ("docs", FsDir true []);
      ("Src", FsDir true []) ].

Definition accents_tree : Node :=
  mkNode "repo" Directory
    (Some [ mkNode "docs" Directory None;
            mkNode "Src" Directory None;
            mkNode "Ünit" Directory None;
            mkNode "apple" File None;
            mkNode "Zed" File None;
            mkNode "éa" File None;
            mkNode "Éb" File None ]).

(** The tree of [repo_demo] cloned at [home_repo]. *)
Definition demo_tree : Node :=
  mkNode "repo" Directory
    (Some
       [ mkNode "Docs" Directory (Some [mkNode "index.md" File None]);
         mkNode "src" Directory
           (Some
              [ mkNode "core" Directory (Some [mkNode "io.py" File None]);
                mkNode "Main.py" File None;
                mkNode "util.py" File None ]);
         mkNode "setup.py" File None ]).

(** The levels of children below a node. *)
Fixpoint node_height (n : Node) : nat :=
  match n with
  | mkNode _ _ None => 0
  | mkNode _ _ (Some cs) => S (list_max (map node_height cs))
  end.

(** The levels of directories below an entry of the snapshot. *)
Fixpoint fs_height (e : FsNode) : nat :=
  match e with
  | FsDir _ entries => S (list_max (map (fun ne => fs_height (snd ne)) entries))
  | _ => 0
  end.

(** The children of a node, none when the field is absent. *)
Definition child_list (n : Node) : list Node :=
  match children n with
  | Some cs => cs
  | None => []
  end.

(** The nodes returned by the calls of a list of visits, in order. *)
Definition nodes_of (vs : list Visit) : list Node :=
  flat_map (fun v => match visit_call v with
                     | Ok (Some n) => [n]
                     | _ => []
                     end) vs.

(** The visits of a listing in the order of the listing, those of the
    directories first. *)
Definition listed (visits : list Visit) : list Visit :=
  filter visit_is_dir visits ++ filter (fun v => negb (visit_is_dir v)) visits.

(** A visit whose call returns [None] contributes nothing to the loop. *)
Definition contributes (v : Visit) : bool :=
  match visit_call v with
  | Ok None => false
  | _ => true
  end.

(** The snapshot with every file emptied. *)
Fixpoint erase_contents (e : FsNode) : FsNode :=
  match e with
  | FsFile _ => FsFile (Ok [])
  | FsDir readable entries =>
      FsDir readable (map (fun ne => (fst ne, erase_contents (snd ne))) entries)
  | _ => e
  end.

(** The tree cut below [k] levels of children. *)
Fixpoint truncate (k : nat) (n : Node) {struct k} : Node :=
  match k with
  | O => mkNode (name n) (type n) None
  | S k' => mkNode (name n) (type n) (option_map (map (truncate k')) (children n))
  end.

(** Two visits of the same entry, the second with the depth limit: when
    the first returns, the second returns the node cut at [k] levels. *)
Definition visit_cut (k : nat) (v w : Visit) : Prop :=
  visit_name w = visit_name v /\
  visit_is_dir w = visit_is_dir v /\
  forall o, visit_call v = Ok o -> visit_call w = Ok (option_map (truncate k) o).

(** The tree of [repo_demo] cloned at [home_repo] with [max_depth = 1]. *)
Definition demo_tree_1 : Node :=
  mkNode "repo" Directory
    (Some [ mkNode "Docs" Directory None;
            mkNode "src" Directory None;
            mkNode "setup.py" File None ]).

(** A symbolic link whose target is an existing clone of [repo_demo]. *)
Definition link_to_repo_demo : FsNode := FsSymlink (Some repo_demo).

(** [repo_demo] after its symbolic link and the excluded [.git] have been
    taken out of the listing of the root. *)
Definition repo_demo_bare : FsNode :=
  FsDir true
    [ ("setup.py", FsFile (Ok []));
      ("src", FsDir true
                [ ("util.py", FsFile (Ok []));
                  ("Main.py", FsFile (Ok []));
                  ("node_modules", FsDir true [("b.txt", FsFile (Ok []))]);
                  ("core", FsDir true [("io.py", FsFile (Ok []))]) ]);
      ("Docs", FsDir true [("index.md", FsFile (Ok []))]) ].

(* ================================================================== *)
(** * Induction on snapshots *)

Section FsNodeInduction.
Variable P : FsNode -> Prop.
Hypothesis Hfile : forall lines, P (FsFile lines).
Hypothesis Hdir :
  forall readable entries,
    Forall (fun ne => P (snd ne)) entries -> P (FsDir readable entries).
Hypothesis Hlink :
  forall target, (forall e, target = Some e -> P e) -> P (FsSymlink target).
Hypothesis Hother : P FsOther.

Fixpoint FsNode_ind (e : FsNode) : P e :=
  match e with
  | FsFile lines => Hfile lines
  | FsDir readable entries =>
      Hdir readable entries
        ((fix all (es : list (string * FsNode)) : Forall (fun ne => P (snd ne)) es :=
            match es with
            | [] => Forall_nil _
            | ne :: es' => Forall_cons ne (FsNode_ind (snd ne)) (all es')
            end) entries)
  | FsSymlink target =>
      Hlink target
        (match target as t return forall e', t = Some e' -> P e' with
         | Some t' => fun e' H =>
             match H in _ = o return match o with Some x => P x | None => True end with
             | eq_refl => FsNode_ind t'
             end
         | None => fun e' H =>
             match H in _ = o return match o with Some x => P x | None => True end with
             | eq_refl => I
             end
         end)
  | FsOther => Hother
  end.

End FsNodeInduction.

(* ================================================================== *)
(** * The order on names *)

Lemma string_compare_refl (s : string) : String.compare s s = Eq.
Proof.
  pose proof (String.compare_antisym s s) as H.
  destruct (String.compare s s); simpl in H; congruence.
Qed.

Lemma string_compare_lt_trans (a b c : string) :
  String.compare a b = Lt -> String.compare b c = Lt -> String.compare a c = Lt.
Proof.
  revert b c.
  induction a as [|x a IH]; intros [|y b] [|z c]; simpl; try congruence.
  unfold Ascii.compare.
  destruct (N.compare_spec (N_of_ascii x) (N_of_ascii y)) as [Hxy|Hxy|Hxy];
    destruct (N.compare_spec (N_of_ascii y) (N_of_ascii z)) as [Hyz|Hyz|Hyz];
    destruct (N.compare_spec (N_of_ascii x) (N_of_ascii z)) as [Hxz|Hxz|Hxz];
    try congruence; try lia.
  apply IH.
Qed.

Lemma ltb_irrefl (s : string) : String.ltb s s = false.
Proof. unfold String.ltb. now rewrite string_compare_refl. Qed.

Lemma ltb_trans (a b c : string) :
  String.ltb a b = true -> String.ltb b c = true -> String.ltb a c = true.
Proof.
  unfold String.ltb. intros Hab Hbc.
  destruct (String.compare a b) eqn:Eab; try discriminate.
  destruct (String.compare b c) eqn:Ebc; try discriminate.
  now rewrite (string_compare_lt_trans _ _ _ Eab Ebc).
Qed.

Lemma ltb_asym (a b : string) : String.ltb a b = true -> String.ltb b a = false.
Proof.
  unfold String.ltb. rewrite (String.compare_antisym a b).
  destruct (String.compare b a); simpl; congruence.
Qed.

Lemma ltb_connected (a b : string) :
  String.ltb a b = false -> String.ltb b a = false -> a = b.
Proof.
  unfold String.ltb. rewrite (String.compare_antisym a b).
  destruct (String.compare b a) eqn:E; simpl; try congruence.
  intros _ _. symmetry. now apply String.compare_eq_iff.
Qed.

Lemma leb_ltb (a b : string) : String.leb a b = negb (String.ltb b a).
Proof.
  unfold String.leb, String.ltb. rewrite (String.compare_antisym a b).
  now destruct (String.compare b a).
Qed.

Lemma leb_trans (a b c : string) :
  String.leb a b = true -> String.leb b c = true -> String.leb a c = true.
Proof.
  rewrite !leb_ltb, !negb_true_iff. intros Hba Hcb.
  destruct (String.ltb c a) eqn:Hca; [|reflexivity].
  destruct (String.ltb a b) eqn:Hab.
  - now rewrite (ltb_trans _ _ _ Hca Hab) in Hcb.
  - rewrite (ltb_connected _ _ Hab Hba) in Hca. congruence.
Qed.

(* ================================================================== *)
(** * Facts on the stable sort *)

Section SortFacts.
Variable A : Type.
Variable key : A -> string.

Lemma insert_perm (x : A) (l : list A) : Permutation (insert key x l) (x :: l).
Proof.
  induction l as [|y l IH]; simpl; [reflexivity|].
  destruct (String.ltb (key y) (key x)); [|reflexivity].
  rewrite IH. apply perm_swap.
Qed.

Lemma sort_perm (l : list A) : Permutation (sort key l) l.
Proof.
  induction l as [|x l IH]; simpl; [reflexivity|].
  rewrite insert_perm. now constructor.
Qed.

Lemma sort_In (x : A) (l : list A) : In x (sort key l) <-> In x l.
Proof.
  split; apply Permutation_in; [|symmetry]; apply sort_perm.
Qed.

Lemma insert_sorted (x : A) (l : list A) :
  StronglySorted (key_le key) l -> StronglySorted (key_le key) (insert key x l).
Proof.
  induction 1 as [|y l Hl IH Hy]; simpl.
  - repeat constructor.
  - destruct (String.ltb (key y) (key x)) eqn:Hyx.
    + constructor; [assumption|].
      rewrite Forall_forall in *. intros z Hz.
      apply (Permutation_in _ (insert_perm x l)) in Hz.
      destruct Hz as [<-|Hz]; [|now apply Hy].
      unfold key_le. rewrite leb_ltb, (ltb_asym _ _ Hyx). reflexivity.
    + assert (Hxy : key_le key x y) by (unfold key_le; now rewrite leb_ltb, Hyx).
      constructor; [now constructor|].
      constructor; [assumption|].
      rewrite Forall_forall in *. intros z Hz.
      exact (leb_trans _ _ _ Hxy (Hy z Hz)).
Qed.

Lemma sort_sorted (l : list A) : StronglySorted (key_le key) (sort key l).
Proof.
  induction l as [|x l IH]; simpl; [constructor|]. now apply insert_sorted.
Qed.

(** Two insertions commute when the keys differ. *)
Lemma insert_insert (x y : A) (l : list A) :
  key x <> key y ->
  insert key x (insert key y l) = insert key y (insert key x l).
Proof.
  intros Hne. induction l as [|z l IH]; simpl.
  - destruct (String.ltb (key y) (key x)) eqn:Hyx;
      destruct (String.ltb (key x) (key y)) eqn:Hxy; try reflexivity.
    + now rewrite (ltb_asym _ _ Hyx) in Hxy.
    + elim Hne. now apply ltb_connected.
  - destruct (String.ltb (key z) (key y)) eqn:Hzy;
      destruct (String.ltb (key z) (key x)) eqn:Hzx; simpl;
      rewrite ?Hzy, ?Hzx.
    + now rewrite IH.
    + destruct (String.ltb (key x) (key y)) eqn:Hxy; [reflexivity|].
      destruct (String.ltb (key y) (key x)) eqn:Hyx.
      * now rewrite (ltb_trans _ _ _ Hzy Hyx) in Hzx.
      * elim Hne. now apply ltb_connected.
    + destruct (String.ltb (key y) (key x)) eqn:Hyx; [reflexivity|].
      destruct (String.ltb (key x) (key y)) eqn:Hxy.
      * now rewrite (ltb_trans _ _ _ Hzx Hxy) in Hzy.
      * elim Hne. now apply ltb_connected.
    + destruct (String.ltb (key y) (key x)) eqn:Hyx;
        destruct (String.ltb (key x) (key y)) eqn:Hxy; simpl;
        rewrite ?Hzy, ?Hzx; try reflexivity.
      * now rewrite (ltb_asym _ _ Hyx) in Hxy.
      * elim Hne. now apply ltb_connected.
Qed.

(** With pairwise different keys the sorted list does not depend on the
    order of the input. *)
Lemma sort_order_independent (l l' : list A) :
  Permutation l l' -> NoDup (map key l) -> sort key l = sort key l'.
Proof.
  induction 1 as [|x l l' Hp IH|x y l|l1 l2 l3 H12 IH12 H23 IH23]; intros Hnd; simpl.
  - reflexivity.
  - inversion Hnd; subst. now rewrite IH.
  - inversion Hnd as [|? ? Hx Hnd']; subst.
    apply insert_insert. intros E. apply Hx. left. now symmetry.
  - rewrite IH12 by assumption. apply IH23.
    eapply Permutation_NoDup; [|exact Hnd]. now apply Permutation_map.
Qed.

End SortFacts.

(* ================================================================== *)
(** * Facts on the builder *)

Lemma strip_prefix_app (root rel : list string) :
  strip_prefix (root ++ rel) root = Ok rel.
Proof.
  induction root as [|r root IH]; simpl; [reflexivity|].
  now rewrite String.eqb_refl.
Qed.

Lemma relative_to_under (root : Path) (rel : list string) :
  relative_to (under root rel) root = Ok rel.
Proof.
  unfold relative_to, under; simpl.
  rewrite String.eqb_refl. apply strip_prefix_app.
Qed.

Lemma joinpath_under (root : Path) (rel : list string) (nm : string) :
  joinpath (under root rel) nm = under root (rel ++ [nm]).
Proof. unfold joinpath, under; simpl. now rewrite app_assoc. Qed.

Lemma under_nil (root : Path) : under root [] = root.
Proof. destruct root; unfold under; simpl. now rewrite app_nil_r. Qed.

Lemma path_name_joinpath (p : Path) (nm : string) : path_name (joinpath p nm) = nm.
Proof. unfold path_name, joinpath; simpl. apply last_last. Qed.

Lemma mem_In (part : string) (xs : list string) : mem part xs = true <-> In part xs.
Proof.
  unfold mem. rewrite existsb_exists. split.
  - intros [x [Hx E]]. apply String.eqb_eq in E. now subst.
  - intros H. exists part. split; [assumption|apply String.eqb_refl].
Qed.

Section GatherFacts.
Context {Str : PyStr}.

(** The nodes a list of visits contributes. *)
Lemma gather_Ok_In (vs : list Visit) (ns : list Node) :
  gather vs = Ok ns ->
  forall n, In n ns <-> exists v, In v vs /\ visit_call v = Ok (Some n).
Proof.
  revert ns. induction vs as [|v vs IH]; simpl; intros ns H n.
  - inversion H; subst. split; [intros []|intros [? [[] _]]].
  - destruct (visit_call v) as [o|e] eqn:Hv; simpl in H; [|discriminate].
    destruct (gather vs) as [rest|e] eqn:Hg; simpl in H; [|discriminate].
    specialize (IH rest eq_refl n).
    inversion H; subst; clear H. destruct o as [m|].
    + simpl. rewrite IH. split.
      * intros [<-|[w [Hw Hc]]]; [exists v; auto|exists w; auto].
      * intros [w [[<-|Hw] Hc]]; [left; congruence|right; eauto].
    + rewrite IH. split.
      * intros [w [Hw Hc]]; exists w; auto.
      * intros [w [[<-|Hw] Hc]]; [congruence|eauto].
Qed.

Lemma gather_Ok_calls (vs : list Visit) (ns : list Node) :
  gather vs = Ok ns -> forall v, In v vs -> exists o, visit_call v = Ok o.
Proof.
  revert ns. induction vs as [|v vs IH]; simpl; intros ns H w Hw; [contradiction|].
  destruct (visit_call v) as [o|e] eqn:Hv; simpl in H; [|discriminate].
  destruct (gather vs) as [rest|e] eqn:Hg; simpl in H; [|discriminate].
  destruct Hw as [<-|Hw]; eauto.
Qed.

(** A visit that raises makes the loop raise. *)
Lemma gather_Raise (vs : list Visit) (v : Visit) (e : Exn) :
  In v vs -> visit_call v = Raise e -> exists e', gather vs = Raise e'.
Proof.
  intros Hin Hv. destruct (gather vs) as [ns|e'] eqn:Hg; [|eauto].
  destruct (gather_Ok_calls _ _ Hg _ Hin) as [o Ho]. congruence.
Qed.

(** The loop raises only what one of its calls raises. *)
Lemma gather_Raise_inv (vs : list Visit) (e : Exn) :
  gather vs = Raise e -> exists v, In v vs /\ visit_call v = Raise e.
Proof.
  induction vs as [|v vs IH]; simpl; [discriminate|].
  destruct (visit_call v) as [o|e'] eqn:Hv; simpl.
  - destruct (gather vs) as [rest|e'] eqn:Hg; simpl; [discriminate|].
    intros H; inversion H; subst. destruct (IH eq_refl) as [w [Hw Hc]]. eauto.
  - intros H; inversion H; subst. eauto.
Qed.

Lemma consumed_In (visits : list Visit) (v : Visit) :
  In v (consumed visits) <-> In v visits.
Proof.
  unfold consumed. rewrite in_app_iff, !sort_In, !filter_In.
  destruct (visit_is_dir v); simpl; intuition congruence.
Qed.

Lemma gather_app (vs ws : list Visit) :
  gather (vs ++ ws) = (a <- gather vs ;; b <- gather ws ;; Ok (a ++ b)).
Proof.
  induction vs as [|v vs IH]; simpl.
  - destruct (gather ws); reflexivity.
  - destruct (visit_call v) as [o|e]; simpl; [|reflexivity].
    rewrite IH. destruct (gather vs) as [a|e]; simpl; [|reflexivity].
    destruct (gather ws) as [b|e]; simpl; [|reflexivity].
    now destruct o.
Qed.

Lemma gather_children_consumed (visits : list Visit) :
  gather_children visits = gather (consumed visits).
Proof. unfold gather_children, consumed. now rewrite gather_app. Qed.

End GatherFacts.

Lemma gather_nodes_of (vs : list Visit) (ns : list Node) :
  gather vs = Ok ns -> ns = nodes_of vs.
Proof.
  revert ns. induction vs as [|v vs IH]; simpl; intros ns H.
  - now inversion H.
  - destruct (visit_call v) as [o|x]; simpl in H; [|discriminate].
    destruct (gather vs) as [rest|x]; simpl in H; [|discriminate].
    rewrite <- (IH rest eq_refl). inversion H. now destruct o.
Qed.

Lemma filter_split_perm (A : Type) (f : A -> bool) (l : list A) :
  Permutation (filter f l ++ filter (fun a => negb (f a)) l) l.
Proof.
  induction l as [|a l IH]; simpl; [constructor|].
  destruct (f a); simpl.
  - now constructor.
  - rewrite <- Permutation_middle. now constructor.
Qed.

Lemma consumed_perm {Str : PyStr} (vs : list Visit) : Permutation (consumed vs) vs.
Proof.
  unfold consumed. rewrite !sort_perm. apply filter_split_perm.
Qed.

Lemma insert_front (A : Type) (key : A -> string) (x : A) (l : list A) :
  Forall (fun z => String.ltb (key z) (key x) = false) l ->
  insert key x l = x :: l.
Proof.
  intros H. destruct l as [|z l]; simpl; [reflexivity|].
  inversion H as [|? ? Hz _]; subst. now rewrite Hz.
Qed.

Lemma filter_insert (A : Type) (key : A -> string) (f : A -> bool) (x : A)
    (s : list A) :
  StronglySorted (key_le key) s ->
  filter f (insert key x s) =
  if f x then insert key x (filter f s) else filter f s.
Proof.
  induction 1 as [|y s Hs IH Hy]; simpl.
  - now destruct (f x).
  - destruct (String.ltb (key y) (key x)) eqn:Hyx; simpl.
    + rewrite IH. destruct (f y), (f x); simpl; rewrite ?Hyx; reflexivity.
    + destruct (f x) eqn:Hfx, (f y) eqn:Hfy; simpl; rewrite ?Hyx; try reflexivity.
      symmetry. apply insert_front.
      rewrite Forall_forall in *. intros z Hz. apply filter_In in Hz.
      assert (Hxz : String.leb (key x) (key z) = true).
      { apply leb_trans with (key y); [now rewrite leb_ltb, Hyx|].
        apply Hy. tauto. }
      rewrite leb_ltb in Hxz. now apply negb_true_iff in Hxz.
Qed.

Lemma filter_sort (A : Type) (key : A -> string) (f : A -> bool) (l : list A) :
  filter f (sort key l) = sort key (filter f l).
Proof.
  induction l as [|a l IH]; simpl; [reflexivity|].
  rewrite filter_insert by apply sort_sorted.
  destruct (f a); simpl; now rewrite IH.
Qed.

Lemma filter_swap (A : Type) (f g : A -> bool) (l : list A) :
  filter f (filter g l) = filter g (filter f l).
Proof.
  induction l as [|a l IH]; simpl; [reflexivity|].
  destruct (g a) eqn:Hg, (f a) eqn:Hf; simpl; rewrite ?Hg, ?Hf, IH; reflexivity.
Qed.

Lemma sort_same_key (A : Type) (key : A -> string) (k : string) (l : list A) :
  Forall (fun x => key x = k) l -> sort key l = l.
Proof.
  induction 1 as [|x l Hx Hl IH]; simpl; [reflexivity|].
  rewrite IH. apply insert_front.
  rewrite Forall_forall in *. intros z Hz.
  rewrite Hx, (Hl z Hz). apply ltb_irrefl.
Qed.

Lemma nodes_of_filter (g : Node -> bool) (h : Visit -> bool) (vs : list Visit) :
  (forall v c, In v vs -> visit_call v = Ok (Some c) -> g c = h v) ->
  filter g (nodes_of vs) = nodes_of (filter h vs).
Proof.
  induction vs as [|v vs IH]; intros Hgh; [reflexivity|].
  unfold nodes_of in *. simpl. rewrite filter_app, IH
    by (intros w c Hw; apply Hgh; now right).
  destruct (visit_call v) as [[c|]|x] eqn:Hc; simpl.
  - rewrite (Hgh v c (or_introl eq_refl) Hc).
    destruct (h v); simpl; now rewrite ?Hc.
  - destruct (h v); simpl; now rewrite ?Hc.
  - destruct (h v); simpl; now rewrite ?Hc.
Qed.

Section BuildFacts.
Context {Str : PyStr} {L : PathSpecLib}.
Variable repo_root : Path.
Variable pathspec_obj : option PathSpec.
Variable max_depth : option Z.
Variable exclude_patterns : list string.

#[local] Abbreviation build :=
  (_build_tree repo_root pathspec_obj max_depth exclude_patterns).
#[local] Abbreviation visit_of :=
  (visit repo_root pathspec_obj max_depth exclude_patterns).

Lemma _build_tree_eq (current_path : Path) (entry : FsNode) (current_depth : Z) :
  build current_path entry current_depth =
  if depth_cut max_depth current_depth then Ok None else
  if is_excluded exclude_patterns current_path then Ok None else
  ignored <- _is_ignored current_path pathspec_obj repo_root ;;
  if (ignored : bool) then Ok None else
  if is_symlink entry then Ok None else
  match entry with
  | FsFile _ => Ok (Some (mkNode (path_name current_path) File None))
  | FsDir readable entries =>
      if gathers max_depth current_depth then
        if readable then
          children <- gather_children (map (visit_of current_path current_depth) entries) ;;
          Ok (Some (mkNode (path_name current_path) Directory
                      (match children with
                       | [] => None
                       | _ => Some children
                       end)))
        else Raise PermissionError
      else Ok (Some (mkNode (path_name current_path) Directory None))
  | _ => Ok None
  end.
Proof. destruct entry; reflexivity. Qed.


(** What a returned node tells about the call that returned it. *)
Lemma build_Some (p : Path) (e : FsNode) (d : Z) (n : Node) :
  build p e d = Ok (Some n) ->
  depth_cut max_depth d = false /\
  is_excluded exclude_patterns p = false /\
  _is_ignored p pathspec_obj repo_root = Ok false /\
  is_symlink e = false /\
  match e with
  | FsFile _ => n = mkNode (path_name p) File None
  | FsDir readable entries =>
      (gathers max_depth d = false /\ n = mkNode (path_name p) Directory None) \/
      (gathers max_depth d = true /\ readable = true /\
       exists cs,
         gather_children (map (visit_of p d) entries) = Ok cs /\
         n = mkNode (path_name p) Directory
               (match cs with [] => None | _ => Some cs end))
  | _ => False
  end.
Proof.
  rewrite _build_tree_eq.
  destruct (depth_cut max_depth d); [discriminate|].
  destruct (is_excluded exclude_patterns p); [discriminate|].
  destruct (_is_ignored p pathspec_obj repo_root) as [[|]|x]; simpl; try discriminate.
  destruct (is_symlink e) eqn:Hs; [discriminate|].
  intros H. repeat (split; [reflexivity|]).
  destruct e as [lines|readable entries|target|]; try discriminate.
  - now inversion H.
  - destruct (gathers max_depth d).
    + right. destruct readable; [|discriminate].
      destruct (gather_children _) as [cs|x]; simpl in H; [|discriminate].
      repeat split. exists cs. split; [reflexivity|]. now inversion H.
    + left. split; [reflexivity|]. now inversion H.
Qed.

Lemma build_Some_name (p : Path) (e : FsNode) (d : Z) (n : Node) :
  build p e d = Ok (Some n) -> name n = path_name p.
Proof.
  intros H. apply build_Some in H. destruct H as (_ & _ & _ & _ & H).
  destruct e; try contradiction.
  - now subst.
  - destruct H as [[_ ->]|(_ & _ & cs & _ & ->)]; reflexivity.
Qed.

Lemma build_Some_type (p : Path) (e : FsNode) (d : Z) (n : Node) :
  build p e d = Ok (Some n) ->
  type n = if is_dir e then Directory else File.
Proof.
  intros H. apply build_Some in H. destruct H as (_ & _ & _ & _ & H).
  destruct e; try contradiction.
  - now subst.
  - destruct H as [[_ ->]|(_ & _ & cs & _ & ->)]; reflexivity.
Qed.

Lemma build_Some_file (p : Path) (e : FsNode) (d : Z) (n : Node) :
  build p e d = Ok (Some n) -> file_is_leaf n.
Proof.
  intros H. apply build_Some in H. destruct H as (_ & _ & _ & _ & H).
  destruct e; try contradiction.
  - now subst.
  - destruct H as [[_ ->]|(_ & _ & cs & _ & ->)]; discriminate.
Qed.

(** Every child of a returned node was returned by the call on an entry of
    the listing. *)
Lemma child_origin (p : Path) (e : FsNode) (d : Z) (n : Node) (cs : list Node) (c : Node) :
  build p e d = Ok (Some n) -> children n = Some cs -> In c cs ->
  exists readable entries ne,
    e = FsDir readable entries /\ In ne entries /\
    build (joinpath p (fst ne)) (snd ne) (d + 1) = Ok (Some c).
Proof.
  intros H Hcs Hc. apply build_Some in H. destruct H as (_ & _ & _ & _ & H).
  destruct e as [lines|readable entries|target|]; try contradiction.
  - subst. discriminate.
  - destruct H as [[_ ->]|(_ & _ & cs' & Hg & ->)]; [discriminate|].
    assert (cs' = cs) as -> by (destruct cs'; simpl in Hcs; congruence).
    rewrite gather_children_consumed in Hg.
    destruct (proj1 (gather_Ok_In _ _ Hg c) Hc) as [v [Hv Hcall]].
    apply consumed_In, in_map_iff in Hv. destruct Hv as [ne [<- Hne]].
    exists readable, entries, ne. auto.
Qed.

(** A property of every returned node holds all over a returned tree. *)
Lemma build_TreeAll (P : Node -> Prop) :
  (forall p e d n, build p e d = Ok (Some n) -> P n) ->
  forall e p d n, build p e d = Ok (Some n) -> TreeAll P n.
Proof.
  intros HP e.
  induction e as [lines|readable entries IH|target _|] using FsNode_ind;
    intros p d n H; constructor; eauto; intros cs c Hcs Hc;
    destruct (child_origin _ _ _ _ _ _ H Hcs Hc) as (r & es & ne & E & Hne & Hb);
    try discriminate.
  inversion E; subst. rewrite Forall_forall in IH. eapply IH; eauto.
Qed.


(** ** Order of the children *)

Lemma gather_sorted (vs : list Visit) (ns : list Node) :
  StronglySorted (key_le visit_key) vs ->
  (forall v c, In v vs -> visit_call v = Ok (Some c) -> name c = visit_name v) ->
  gather vs = Ok ns ->
  StronglySorted case_le ns.
Proof.
  intros Hs. revert ns.
  induction Hs as [|v vs Hs IH Hv]; simpl; intros ns Hname H.
  - inversion H. constructor.
  - destruct (visit_call v) as [o|x] eqn:Hc; simpl in H; [|discriminate].
    destruct (gather vs) as [rest|x] eqn:Hg; simpl in H; [|discriminate].
    assert (Hrest : StronglySorted case_le rest) by (apply IH; auto).
    inversion H; subst; clear H.
    destruct o as [m|]; [|assumption].
    constructor; [assumption|].
    rewrite Forall_forall in *. intros c Hin.
    destruct (proj1 (gather_Ok_In _ _ Hg c) Hin) as [w [Hw Hwc]].
    unfold case_le.
    rewrite (Hname v m (or_introl eq_refl) Hc), (Hname w c (or_intror Hw) Hwc).
    exact (Hv w Hw).
Qed.

Lemma gather_Forall (P : Node -> Prop) (vs : list Visit) (ns : list Node) :
  (forall v c, In v vs -> visit_call v = Ok (Some c) -> P c) ->
  gather vs = Ok ns ->
  Forall P ns.
Proof.
  intros HP Hg. rewrite Forall_forall. intros c Hc.
  destruct (proj1 (gather_Ok_In _ _ Hg c) Hc) as [v [Hv Hvc]]. eauto.
Qed.

Lemma build_children_ordered (p : Path) (e : FsNode) (d : Z) (n : Node) :
  build p e d = Ok (Some n) -> children_ordered n.
Proof.
  intros H cs Hcs. apply build_Some in H. destruct H as (_ & _ & _ & _ & H).
  destruct e as [lines|readable entries|target|]; try contradiction.
  { subst. discriminate. }
  destruct H as [[_ ->]|(_ & _ & cs' & Hg & ->)]; [discriminate|].
  assert (cs' = cs) as -> by (destruct cs'; simpl in Hcs; congruence).
  unfold gather_children in Hg.
  destruct (gather (sort visit_key (filter visit_is_dir _))) as [ds|x] eqn:Hd;
    simpl in Hg; [|discriminate].
  destruct (gather (sort visit_key (filter (fun v => negb (visit_is_dir v)) _)))
    as [fs|x] eqn:Hf; simpl in Hg; [|discriminate].
  inversion Hg; subst; clear Hg.
  assert (Hvisit : forall (f : Visit -> bool) v c,
             In v (sort visit_key (filter f (map (visit_of p d) entries))) ->
             visit_call v = Ok (Some c) ->
             f v = true /\ name c = visit_name v /\
             type c = if visit_is_dir v then Directory else File).
  { intros f v c Hv Hc. apply sort_In, filter_In in Hv. destruct Hv as [Hv Hfv].
    apply in_map_iff in Hv. destruct Hv as [ne [<- Hne]].
    unfold visit_call, visit in Hc; simpl in Hc.
    split; [assumption|]. split.
    - rewrite (build_Some_name _ _ _ _ Hc). apply path_name_joinpath.
    - exact (build_Some_type _ _ _ _ Hc). }
  exists ds, fs. repeat split.
  - eapply gather_Forall; [|exact Hd]. intros v c Hv Hc.
    destruct (Hvisit _ v c Hv Hc) as (Hdir & _ & Ht). now rewrite Hdir in Ht.
  - eapply gather_Forall; [|exact Hf]. intros v c Hv Hc.
    destruct (Hvisit _ v c Hv Hc) as (Hdir & _ & Ht).
    apply negb_true_iff in Hdir. now rewrite Hdir in Ht.
  - eapply gather_sorted; [apply sort_sorted| |exact Hd].
    intros v c Hv Hc. now destruct (Hvisit _ v c Hv Hc) as (_ & Hn & _).
  - eapply gather_sorted; [apply sort_sorted| |exact Hf].
    intros v c Hv Hc. now destruct (Hvisit _ v c Hv Hc) as (_ & Hn & _).
Qed.

(** C4. In every directory node of a tree returned by [_build_tree], the
    children are the directory nodes followed by the file nodes, and each
    of the two groups is sorted ascending by lower-cased name. *)
Theorem children_dirs_then_files_sorted (p : Path) (e : FsNode) (d : Z) (n : Node) :
  build p e d = Ok (Some n) -> TreeAll children_ordered n.
Proof. apply build_TreeAll. exact build_children_ordered. Qed.

(** ** The filters *)

Lemma build_Emitted (e : FsNode) :
  forall p d n,
    build p e d = Ok (Some n) ->
    Emitted repo_root pathspec_obj exclude_patterns p e n.
Proof.
  induction e as [lines|readable entries IH|target _|] using FsNode_ind;
    intros p d n H;
    (constructor;
     [ apply build_Some in H; unfold passes_filters; tauto
     | exact (build_Some_name _ _ _ _ H)
     | intros cs c Hcs Hc;
       destruct (child_origin _ _ _ _ _ _ H Hcs Hc) as (r & es & ne & E & Hne & Hb);
       try discriminate ]).
  inversion E; subst. exists ne. split; [assumption|].
  rewrite Forall_forall in IH. eapply IH; eauto.
Qed.

(** C6. Every node of a tree returned by [_build_tree] stands for an entry
    that passed the exclusion test, the ignore test and the symlink test,
    and every file node is without children. *)
Theorem emitted_nodes_passed_filters (p : Path) (e : FsNode) (d : Z) (n : Node) :
  build p e d = Ok (Some n) ->
  Emitted repo_root pathspec_obj exclude_patterns p e n /\
  TreeAll file_is_leaf n.
Proof.
  intros H. split.
  - exact (build_Emitted _ _ _ _ H).
  - revert H. apply build_TreeAll. exact build_Some_file.
Qed.


(** ** Depth *)

(** [enumerates] is the condition under which the recursive calls count:
    when it holds the node is assembled from the visits of the listing,
    and when it fails the listing does not matter. *)
Lemma enumerates_build (p : Path) (e : FsNode) (d : Z) :
  enumerates repo_root pathspec_obj max_depth exclude_patterns p e d ->
  build p e d =
  (cs <- gather_children (map (visit_of p d) (listing e)) ;;
   Ok (Some (mkNode (path_name p) Directory
               (match cs with [] => None | _ => Some cs end)))).
Proof.
  intros (Hcut & (Hex & Hig & Hsym) & [entries ->] & Hg).
  rewrite _build_tree_eq, Hcut, Hex, Hig; simpl. now rewrite Hg.
Qed.

Lemma not_enumerates_build (p : Path) (readable : bool)
    (entries entries' : list (string * FsNode)) (d : Z) :
  ~ enumerates repo_root pathspec_obj max_depth exclude_patterns
      p (FsDir readable entries) d ->
  build p (FsDir readable entries) d = build p (FsDir readable entries') d.
Proof.
  intros Hn. rewrite !_build_tree_eq.
  destruct (depth_cut max_depth d) eqn:Hcut; [reflexivity|].
  destruct (is_excluded exclude_patterns p) eqn:Hex; [reflexivity|].
  destruct (_is_ignored p pathspec_obj repo_root) as [[|]|x] eqn:Hig;
    simpl; try reflexivity.
  destruct (gathers max_depth d) eqn:Hg; [|reflexivity].
  destruct readable; [|reflexivity].
  elim Hn. unfold enumerates, passes_filters. repeat split; eauto.
Qed.

Lemma Invoked_depth (e0 : FsNode) (p : Path) (e : FsNode) (d : Z) :
  (forall m, max_depth = Some m -> 0 <= m) ->
  Invoked repo_root pathspec_obj max_depth exclude_patterns e0 p e d ->
  0 <= d /\ forall m, max_depth = Some m -> d <= m.
Proof.
  intros Hm. induction 1 as [|p e d ne Hinv IH Hen Hne].
  - split; [lia|]. intros m E. now apply Hm.
  - destruct IH as [Hd _]. split; [lia|]. intros m E.
    destruct Hen as (_ & _ & _ & Hg). unfold gathers in Hg. rewrite E in Hg.
    apply Z.ltb_lt in Hg. lia.
Qed.

(** C9. In a run entered at the root with depth 0 and a [max_depth] that
    is [None] or not negative, no call of [_build_tree] takes the cut of
    line 196: every call has [0 <= current_depth <= max_depth], because a
    call one level deeper is only made where [current_depth < max_depth];
    what each call returns is what lines 199-271 compute, the depth being
    limited by the test of line 227 alone. *)
Theorem depth_cut_never_taken (e0 : FsNode) (p : Path) (e : FsNode) (d : Z) :
  (forall m, max_depth = Some m -> 0 <= m) ->
  Invoked repo_root pathspec_obj max_depth exclude_patterns e0 p e d ->
  depth_cut max_depth d = false /\
  0 <= d /\
  (forall m, max_depth = Some m -> d <= m) /\
  build p e d =
  (if is_excluded exclude_patterns p then Ok None else
   ignored <- _is_ignored p pathspec_obj repo_root ;;
   if (ignored : bool) then Ok None else
   if is_symlink e then Ok None else
   match e with
   | FsFile _ => Ok (Some (mkNode (path_name p) File None))
   | FsDir readable entries =>
       if gathers max_depth d then
         if readable then
           children <- gather_children (map (visit_of p d) entries) ;;
           Ok (Some (mkNode (path_name p) Directory
                       (match children with
                        | [] => None
                        | _ => Some children
                        end)))
         else Raise PermissionError
       else Ok (Some (mkNode (path_name p) Directory None))
   | _ => Ok None
   end).
Proof.
  intros Hm Hinv. destruct (Invoked_depth _ _ _ _ Hm Hinv) as [Hd Hle].
  assert (Hcut : depth_cut max_depth d = false).
  { unfold depth_cut. destruct max_depth as [m|]; [|reflexivity].
    apply Z.ltb_ge. now apply Hle. }
  split; [exact Hcut|]. split; [exact Hd|]. split; [exact Hle|].
  rewrite _build_tree_eq, Hcut. reflexivity.
Qed.

Lemma build_at_max_depth (m : Z) (p : Path) (readable : bool)
    (entries : list (string * FsNode)) :
  max_depth = Some m ->
  is_excluded exclude_patterns p = false ->
  _is_ignored p pathspec_obj repo_root = Ok false ->
  build p (FsDir readable entries) m =
  Ok (Some (mkNode (path_name p) Directory None)).
Proof.
  intros E Hex Hig. rewrite _build_tree_eq. unfold depth_cut, gathers.
  rewrite E, Z.ltb_irrefl, Hex, Hig. reflexivity.
Qed.

Lemma build_at_max_depth_leaf (m : Z) (p : Path) (e : FsNode) (n : Node) :
  max_depth = Some m ->
  build p e m = Ok (Some n) ->
  children n = None.
Proof.
  intros E H. apply build_Some in H. destruct H as (_ & _ & _ & _ & H).
  destruct e; try contradiction.
  - now subst.
  - destruct H as [[_ ->]|(Hg & _)]; [reflexivity|].
    unfold gathers in Hg. rewrite E, Z.ltb_irrefl in Hg. discriminate.
Qed.

Lemma build_negative_max_depth (m : Z) (p : Path) (e : FsNode) :
  max_depth = Some m -> m < 0 -> build p e 0 = Ok None.
Proof.
  intros E Hm. rewrite _build_tree_eq. unfold depth_cut. rewrite E.
  now rewrite (proj2 (Z.ltb_lt m 0) Hm).
Qed.


(** ** The directory case in the order of the source *)

Lemma filter_map_comm (A B : Type) (g : A -> B) (f : B -> bool) (l : list A) :
  filter f (map g l) = map g (filter (fun a => f (g a)) l).
Proof.
  induction l as [|a l IH]; simpl; [reflexivity|].
  destruct (f (g a)); simpl; now rewrite IH.
Qed.

Lemma insert_map (A B : Type) (g : A -> B) (key : B -> string) (a : A) (l : list A) :
  insert key (g a) (map g l) = map g (insert (fun x => key (g x)) a l).
Proof.
  induction l as [|b l IH]; simpl; [reflexivity|].
  destruct (String.ltb (key (g b)) (key (g a))); simpl; now rewrite ?IH.
Qed.

Lemma sort_map (A B : Type) (g : A -> B) (key : B -> string) (l : list A) :
  sort key (map g l) = map g (sort (fun x => key (g x)) l).
Proof.
  induction l as [|a l IH]; simpl; [reflexivity|].
  now rewrite IH, insert_map.
Qed.

(** Lines 228-263 as written: the entries are split on [is_dir], each part
    is sorted by lower-cased name, and [_build_tree] is called on the
    directories, then on the others, one level deeper. *)
Lemma _build_tree_dir (p : Path) (entries : list (string * FsNode)) (d : Z) :
  enumerates repo_root pathspec_obj max_depth exclude_patterns
    p (FsDir true entries) d ->
  build p (FsDir true entries) d =
  let dirs := sort entry_key (filter (fun ne => is_dir (snd ne)) entries) in
  let files := sort entry_key (filter (fun ne => negb (is_dir (snd ne))) entries) in
  from_dirs <- gather (map (visit_of p d) dirs) ;;
  from_files <- gather (map (visit_of p d) files) ;;
  let children := from_dirs ++ from_files in
  Ok (Some (mkNode (path_name p) Directory
              (match children with
               | [] => None
               | _ => Some children
               end))).
Proof.
  intros Hen. rewrite (enumerates_build _ _ _ Hen). simpl.
  unfold gather_children.
  rewrite !filter_map_comm, !sort_map.
  destruct (gather _) as [ds|x]; simpl; [|reflexivity].
  destruct (gather _) as [fs|x]; reflexivity.
Qed.

(** ** Errors *)

Lemma is_ignored_under (rel : list string) :
  _is_ignored (under repo_root rel) pathspec_obj repo_root =
  Ok (match pathspec_obj with
      | None => false
      | Some ps => match_file ps (rel_str rel)
      end).
Proof.
  unfold _is_ignored. destruct pathspec_obj; [|reflexivity].
  now rewrite relative_to_under.
Qed.

(** Below the root the only exception is the one of [iterdir]. *)
Lemma build_Raise (e : FsNode) :
  forall rel d x, build (under repo_root rel) e d = Raise x -> x = PermissionError.
Proof.
  induction e as [lines|readable entries IH|target _|] using FsNode_ind;
    intros rel d x; rewrite _build_tree_eq, is_ignored_under; simpl;
    repeat match goal with
           | |- context [if ?b then _ else _] => destruct b; try discriminate
           end.
  - destruct (gather_children _) as [cs|y] eqn:Hg; simpl; [discriminate|].
    intros H; inversion H; subst; clear H.
    rewrite gather_children_consumed in Hg.
    apply gather_Raise_inv in Hg. destruct Hg as [v [Hv Hc]].
    apply consumed_In, in_map_iff in Hv. destruct Hv as [ne [<- Hne]].
    unfold visit_call, visit in Hc; simpl in Hc.
    rewrite joinpath_under in Hc.
    rewrite Forall_forall in IH. exact (IH ne Hne _ _ _ Hc).
  - congruence.
Qed.

Lemma build_unreadable (p : Path) (entries : list (string * FsNode)) (d : Z) :
  depth_cut max_depth d = false ->
  passes_filters repo_root pathspec_obj exclude_patterns p (FsDir false entries) ->
  gathers max_depth d = true ->
  build p (FsDir false entries) d = Raise PermissionError.
Proof.
  intros Hcut (Hex & Hig & _) Hg.
  rewrite _build_tree_eq, Hcut, Hex, Hig; simpl. now rewrite Hg.
Qed.

Lemma build_child_raises (p : Path) (entries : list (string * FsNode)) (d : Z)
    (ne : string * FsNode) (x : Exn) :
  enumerates repo_root pathspec_obj max_depth exclude_patterns
    p (FsDir true entries) d ->
  In ne entries ->
  build (joinpath p (fst ne)) (snd ne) (d + 1) = Raise x ->
  exists x', build p (FsDir true entries) d = Raise x'.
Proof.
  intros Hen Hne Hx. rewrite (enumerates_build _ _ _ Hen); simpl.
  rewrite gather_children_consumed.
  destruct (@gather_Raise (consumed (map (visit_of p d) entries))
              (visit_of p d ne) x) as [x' Hx'].
  - apply consumed_In, in_map. assumption.
  - exact Hx.
  - exists x'. now rewrite Hx'.
Qed.

(** ** Listing order *)

Lemma distinct_NoDup (xs : list string) : distinct xs = true <-> NoDup xs.
Proof.
  induction xs as [|x xs IH]; simpl.
  - split; [constructor|reflexivity].
  - rewrite andb_true_iff, negb_true_iff, IH, NoDup_cons_iff.
    rewrite <- mem_In. destruct (mem x xs); intuition congruence.
Qed.

Lemma filter_perm (A : Type) (f : A -> bool) (l l' : list A) :
  Permutation l l' -> Permutation (filter f l) (filter f l').
Proof.
  induction 1 as [|x l l' Hp IH|x y l|l1 l2 l3 H12 IH12 H23 IH23]; simpl.
  - constructor.
  - destruct (f x); [now constructor|assumption].
  - destruct (f x), (f y); try reflexivity. apply perm_swap.
  - now transitivity (filter f l2).
Qed.

Lemma NoDup_map_filter (A B : Type) (k : A -> B) (f : A -> bool) (l : list A) :
  NoDup (map k l) -> NoDup (map k (filter f l)).
Proof.
  induction l as [|x l IH]; simpl; intros H; [constructor|].
  inversion H as [|? ? Hx Hl]; subst.
  destruct (f x); simpl; [|auto].
  constructor; [|auto].
  intros Hin. apply Hx. apply in_map_iff in Hin. destruct Hin as [y [E Hy]].
  apply filter_In in Hy. apply in_map_iff. exists y. tauto.
Qed.

Lemma visit_keys (p : Path) (d : Z) (es : list (string * FsNode)) :
  map visit_key (map (visit_of p d) es) = map entry_key es.
Proof. rewrite map_map. apply map_ext. reflexivity. Qed.

Lemma gather_children_perm (vs vs' : list Visit) :
  Permutation vs vs' -> NoDup (map visit_key vs) ->
  gather_children vs = gather_children vs'.
Proof.
  intros Hp Hnd. unfold gather_children.
  rewrite (@sort_order_independent _ visit_key (filter visit_is_dir vs)
             (filter visit_is_dir vs'))
    by (try apply filter_perm; try apply NoDup_map_filter; assumption).
  rewrite (@sort_order_independent _ visit_key
             (filter (fun v => negb (visit_is_dir v)) vs)
             (filter (fun v => negb (visit_is_dir v)) vs'))
    by (try apply filter_perm; try apply NoDup_map_filter; assumption).
  reflexivity.
Qed.

Lemma same_snapshot_build (a b : FsNode) :
  same_snapshot a b ->
  case_distinct a = true ->
  case_distinct b = true /\
  is_dir a = is_dir b /\
  forall p d, build p a d = build p b d.
Proof.
  intros H.
  induction H using same_snapshot_mut with
    (P0 := fun es es' =>
       forallb (fun ne => case_distinct (snd ne)) es = true ->
       forallb (fun ne => case_distinct (snd ne)) es' = true /\
       Permutation (map entry_key es) (map entry_key es') /\
       forall p d, Permutation (map (visit_of p d) es) (map (visit_of p d) es')).
  - auto.
  - cbn [case_distinct]. rewrite !andb_true_iff. intros [Hd Hall].
    destruct (IHsame_snapshot Hall) as (Hall' & Hkeys & Hvis).
    apply distinct_NoDup in Hd.
    split; [split|split].
    + apply distinct_NoDup. eapply Permutation_NoDup; eauto.
    + assumption.
    + reflexivity.
    + intros p d. rewrite !_build_tree_eq; simpl.
      rewrite (gather_children_perm _ _ (Hvis p d)); [reflexivity|].
      now rewrite visit_keys.
  - auto.
  - simpl. rewrite !andb_true_iff. intros [He Hes].
    destruct (IHsame_snapshot He) as (He' & Hdir & Hb).
    destruct (IHsame_snapshot0 Hes) as (Hes' & Hkeys & Hvis).
    split; [split; assumption|split].
    + now constructor.
    + intros p d. unfold visit at 1 3; simpl. rewrite Hdir, Hb.
      constructor. apply Hvis.
  - simpl. rewrite !andb_true_iff. intros (Hx & Hy & Hes).
    split; [tauto|split]; intros; apply perm_swap.
  - intros H1.
    destruct (IHsame_snapshot H1) as (H2 & Hk12 & Hv12).
    destruct (IHsame_snapshot0 H2) as (H3 & Hk23 & Hv23).
    split; [assumption|split].
    + now transitivity (map entry_key es2).
    + intros p d. now transitivity (map (visit_of p d) es2).
Qed.


(** C3 (as the code has it). Nothing catches the [PermissionError] of
    [iterdir]: the call on a directory whose listing is denied raises it,
    and a call whose loop meets a raising call raises it too, so no tree
    is returned. *)
Theorem permission_denied_aborts_traversal (rel : list string)
    (entries : list (string * FsNode)) (d : Z) :
  depth_cut max_depth d = false ->
  passes_filters repo_root pathspec_obj exclude_patterns
    (under repo_root rel) (FsDir true entries) ->
  gathers max_depth d = true ->
  build (under repo_root rel) (FsDir false entries) d = Raise PermissionError /\
  (forall ne,
     In ne entries ->
     build (joinpath (under repo_root rel) (fst ne)) (snd ne) (d + 1)
       = Raise PermissionError ->
     build (under repo_root rel) (FsDir true entries) d = Raise PermissionError).
Proof.
  intros Hcut Hpass Hg. split.
  - apply build_unreadable; assumption.
  - intros ne Hne Hx.
    destruct (@build_child_raises (under repo_root rel) entries d ne PermissionError)
      as [x' Hx']; try assumption.
    + unfold enumerates. eauto.
    + rewrite Hx'. f_equal. exact (build_Raise _ _ _ _ Hx').
Qed.

Lemma children_with_key (p : Path) (readable : bool)
    (entries : list (string * FsNode)) (d : Z) (n : Node) (k : string) :
  build p (FsDir readable entries) d = Ok (Some n) ->
  gathers max_depth d = true ->
  filter (fun c => String.eqb (lower (name c)) k) (child_list n)
  = nodes_of (filter (fun v => String.eqb (visit_key v) k)
                (listed (map (visit_of p d) entries))).
Proof.
  intros H Hg. apply build_Some in H. destruct H as (_ & _ & _ & _ & H).
  destruct H as [[Hg' _]|(_ & _ & cs & Hcs & ->)]; [congruence|].
  replace (child_list _) with cs by (now destruct cs).
  rewrite gather_children_consumed in Hcs.
  rewrite (gather_nodes_of _ _ Hcs).
  rewrite (nodes_of_filter _ (fun v => String.eqb (visit_key v) k)).
  - f_equal. unfold consumed, listed. rewrite !filter_app, !filter_sort.
    f_equal; apply sort_same_key with (k := k); rewrite Forall_forall;
      intros v Hv; apply filter_In in Hv; now apply String.eqb_eq.
  - intros v c Hv Hc. apply consumed_In, in_map_iff in Hv.
    destruct Hv as [ne [<- Hne]]. unfold visit_call, visit in Hc; simpl in Hc.
    unfold visit_key, visit_name, visit; simpl.
    now rewrite (build_Some_name _ _ _ _ Hc), path_name_joinpath.
Qed.

(** C8 (as the code has it). On two snapshots of the same entries that
    differ only in the order of the listings, [_build_tree] gives the same
    result, provided that no directory holds two entries whose names are
    equal once lower-cased.  Entries whose lower-cased names are equal keep
    the order of the listing: the children of a directory node with one
    lower-cased name are the nodes returned for the entries with that
    lower-cased name, directories first, each kind in listing order. *)
Theorem build_independent_of_listing_order (a b : FsNode) (p : Path) (d : Z) :
  (same_snapshot a b ->
   case_distinct a = true ->
   build p a d = build p b d) /\
  (forall readable entries n k,
     a = FsDir readable entries ->
     build p a d = Ok (Some n) ->
     gathers max_depth d = true ->
     filter (fun c => String.eqb (lower (name c)) k) (child_list n)
     = nodes_of (filter (fun v => String.eqb (visit_key v) k)
                   (listed (map (visit_of p d) entries)))).
Proof.
  split.
  - intros H Ha. destruct (same_snapshot_build _ _ H Ha) as (_ & _ & Hb). apply Hb.
  - intros readable entries n k -> H Hg.
    exact (children_with_key p readable entries d n k H Hg).
Qed.

End BuildFacts.

(* ================================================================== *)
(** * The exclusion test *)

Lemma parts_under (root : Path) (rel : list string) :
  parts (under root rel) = parts root ++ rel.
Proof. unfold parts, under; simpl. now destruct (String.eqb (anchor root) ""). Qed.

Lemma is_excluded_spec (exclude_patterns : list string) (p : Path) :
  is_excluded exclude_patterns p = true <->
  exists part, In part (parts p) /\ In part exclude_patterns.
Proof.
  unfold is_excluded. rewrite existsb_exists.
  split; intros [part [Hp Hm]]; exists part; split; auto; now apply mem_In.
Qed.

(** The exclusion test holds exactly when some part of the whole path of
    the entry, the parts of the repository root included, is a member of
    the exclusion list; when no part of the root path is a member, it
    holds exactly when one of the names from the root down to the entry is
    a member. *)
Lemma is_excluded_under (exclude_patterns : list string)
    (repo_root : Path) (rel : list string) :
  (is_excluded exclude_patterns (under repo_root rel) = true <->
   exists part, In part (parts repo_root ++ rel) /\ In part exclude_patterns) /\
  ((forall part, In part (parts repo_root) -> ~ In part exclude_patterns) ->
   (is_excluded exclude_patterns (under repo_root rel) = true <->
    exists part, In part rel /\ In part exclude_patterns)).
Proof.
  rewrite is_excluded_spec, parts_under. split; [reflexivity|].
  intros Hroot. split; intros [part [Hp Hm]]; exists part; split; auto.
  - apply in_app_or in Hp. destruct Hp as [Hp|Hp]; [|assumption].
    elim (Hroot part Hp Hm).
  - apply in_or_app. now right.
Qed.

(** The examples are run with [str.lower] on texts up to U+00FF. *)
#[export] Existing Instance latin1.

(** C1. The exclusion test is meant to look at the names from the
    repository root down to the entry, but line 200 runs over all the
    parts of the path: a repository cloned below a directory called [venv]
    is excluded as a whole, entry [src] included, although neither the
    name of the root nor a name below it is in the exclusion list, and
    [get_repo_structure] returns [None] for it. *)
Theorem excluded_by_part_above_root :
  is_excluded DEFAULT_EXCLUDES (under venv_repo ["src"]) = true /\
  ~ (exists part, In part (path_name venv_repo :: ["src"]) /\
                  In part DEFAULT_EXCLUDES) /\
  get_repo_structure no_git repo_url home_repo (Some repo_demo) None None None
  = Ok (Some demo_tree) /\
  get_repo_structure no_git repo_url venv_repo (Some repo_demo) None None None
  = Ok None.
Proof.
  split; [reflexivity|]. split; [|split; vm_compute; reflexivity].
  intros [part [Hp Hm]]. simpl in Hp, Hm.
  repeat (destruct Hp as [<-|Hp]; [intuition discriminate|]). exact Hp.
Qed.

(* ================================================================== *)
(** * The entry point *)

Section EntryPoint.
Context {Str : PyStr} {L : PathSpecLib}.
Variable git : GitClient.
Variable github_url : string.
Variable clone_path : Path.
Variable st : option FsNode.
Variable token : option string.

Lemma get_repo_structure_cloned (st' : option FsNode) (max_depth : option Z)
    (extra : option (list string)) :
  _clone_repo_if_needed git github_url st token = Ok st' ->
  get_repo_structure git github_url clone_path st token max_depth extra =
  (pathspec_obj <- _get_pathspec st' ;;
   build_root clone_path st' pathspec_obj max_depth (merged_excludes extra)).
Proof. intros H. unfold get_repo_structure. now rewrite H. Qed.

Lemma child_state_not_dir (st' : option FsNode) (nm : string) :
  is_dir (entry_at st') = false -> child_state st' nm = None.
Proof.
  unfold child_state, is_dir, entry_at.
  destruct st' as [e|]; [|reflexivity].
  destruct (resolve e) as [[content|readable entries|target|]|];
    try reflexivity; discriminate.
Qed.

(** C2 (as the code has it). No check rejects a root that is missing or
    not a directory: such a root is always handed to the clone step.  When
    that step raises, as git does on a destination that is a regular file,
    the call raises the same exception and nothing is traversed; when it
    returns, as on a path that did not exist, the call goes on with what
    the clone step left at the path. *)
Theorem non_directory_root_is_not_rejected (max_depth : option Z)
    (extra : option (list string)) :
  is_dir (entry_at st) = false ->
  _clone_repo_if_needed git github_url st token
  = clone_repo_with_progress git github_url st token /\
  (forall x,
     clone_repo_with_progress git github_url st token = Raise x ->
     get_repo_structure git github_url clone_path st token max_depth extra = Raise x) /\
  (forall st',
     clone_repo_with_progress git github_url st token = Ok st' ->
     get_repo_structure git github_url clone_path st token max_depth extra =
     (pathspec_obj <- _get_pathspec st' ;;
      build_root clone_path st' pathspec_obj max_depth (merged_excludes extra))).
Proof.
  intros Hdir.
  assert (Hclone : _clone_repo_if_needed git github_url st token
                   = clone_repo_with_progress git github_url st token).
  { unfold _clone_repo_if_needed.
    rewrite (child_state_not_dir st ".git" Hdir). simpl.
    now rewrite andb_false_r. }
  split; [exact Hclone|]. split.
  - intros x H. unfold get_repo_structure. now rewrite Hclone, H.
  - intros st' H. apply get_repo_structure_cloned. now rewrite Hclone.
Qed.

(** C5. With [max_depth = m], the call on a directory at depth [m] that
    passes the filters returns the bare directory node whatever its
    listing holds and whether or not it can be listed; no node returned at
    depth [m] has children, and so with [max_depth = 0] the node returned
    by [get_repo_structure] has none. *)
Theorem directory_at_max_depth_has_no_children (repo_root : Path)
    (pathspec_obj : option PathSpec) (exclude_patterns : list string) (m : Z) :
  (forall p readable entries,
     is_excluded exclude_patterns p = false ->
     _is_ignored p pathspec_obj repo_root = Ok false ->
     _build_tree repo_root pathspec_obj (Some m) exclude_patterns
       p (FsDir readable entries) m
     = Ok (Some (mkNode (path_name p) Directory None))) /\
  (forall p e n,
     _build_tree repo_root pathspec_obj (Some m) exclude_patterns p e m
     = Ok (Some n) ->
     children n = None) /\
  (forall extra n,
     get_repo_structure git github_url clone_path st token (Some 0) extra
     = Ok (Some n) ->
     children n = None).
Proof.
  split; [|split].
  - intros p readable entries Hex Hig. now apply build_at_max_depth.
  - intros p e n H. eapply build_at_max_depth_leaf; [reflexivity|exact H].
  - intros extra n H. unfold get_repo_structure in H.
    destruct (_clone_repo_if_needed git github_url st token) as [st'|x];
      [|discriminate].
    simpl in H.
    destruct (_get_pathspec st') as [ps|x]; [|discriminate].
    simpl in H. unfold build_root in H.
    eapply build_at_max_depth_leaf; [reflexivity|exact H].
Qed.

Lemma clone_not_needed :
  path_exists st && path_exists (child_state st ".git") = true ->
  _clone_repo_if_needed git github_url st token = Ok st.
Proof. intros H. unfold _clone_repo_if_needed. now rewrite H. Qed.

(** C10 (as the code has it). With a negative [max_depth] the call of
    [_build_tree] at depth 0 is cut by line 196 and returns [None].  The
    ignore file of the root is read and compiled before that call: when
    the clone step returns, and in particular on an existing clone,
    [get_repo_structure] returns [None] if reading and compiling the
    ignore file raises nothing, and raises the exception of that step
    otherwise. *)
Theorem negative_max_depth_returns_None (m : Z) :
  m < 0 ->
  (forall repo_root pathspec_obj exclude_patterns p e,
     _build_tree repo_root pathspec_obj (Some m) exclude_patterns p e 0 = Ok None) /\
  (forall extra st' ps,
     _clone_repo_if_needed git github_url st token = Ok st' ->
     _get_pathspec st' = Ok ps ->
     get_repo_structure git github_url clone_path st token (Some m) extra = Ok None) /\
  (forall extra ps,
     path_exists st && path_exists (child_state st ".git") = true ->
     _get_pathspec st = Ok ps ->
     get_repo_structure git github_url clone_path st token (Some m) extra = Ok None) /\
  (forall extra st' x,
     _clone_repo_if_needed git github_url st token = Ok st' ->
     _get_pathspec st' = Raise x ->
     get_repo_structure git github_url clone_path st token (Some m) extra = Raise x).
Proof.
  intros Hm.
  assert (Hcut : forall repo_root pathspec_obj exclude_patterns p e,
             _build_tree repo_root pathspec_obj (Some m) exclude_patterns p e 0
             = Ok None).
  { intros. eapply build_negative_max_depth; [reflexivity|exact Hm]. }
  assert (Hret : forall extra st' ps,
             _clone_repo_if_needed git github_url st token = Ok st' ->
             _get_pathspec st' = Ok ps ->
             get_repo_structure git github_url clone_path st token (Some m) extra
             = Ok None).
  { intros extra st' ps H Hps. rewrite (get_repo_structure_cloned _ _ _ H), Hps.
    apply Hcut. }
  split; [exact Hcut|]. split; [exact Hret|]. split.
  - intros extra ps H Hps. apply (Hret extra st ps); [|exact Hps].
    now apply clone_not_needed.
  - intros extra st' x H Hps.
    now rewrite (get_repo_structure_cloned _ _ _ H), Hps.
Qed.

End EntryPoint.

(** Witness of C2: a regular file where the repository should be; git
    refuses the destination. *)
Lemma non_directory_root_is_not_rejected_witness :
  is_dir (entry_at (Some (FsFile (Ok [])))) = false /\
  get_repo_structure (git_cloning repo_demo) repo_url home_repo
    (Some (FsFile (Ok []))) None None None
  = Raise GitCommandError.
Proof.
  assert (H : is_dir (entry_at (Some (FsFile (Ok [])))) = false) by reflexivity.
  split; [exact H|].
  exact (proj1 (proj2 (@non_directory_root_is_not_rejected latin1 gitwildmatch
                         (git_cloning repo_demo) repo_url home_repo
                         (Some (FsFile (Ok []))) None None None H))
           GitCommandError eq_refl).
Defined.

(** C2 fails as stated: a root path that does not exist is cloned into and
    traversed, and the tree of the clone is returned; no error is
    raised. *)
Lemma missing_root_is_not_an_error :
  path_exists None = false /\
  is_dir (entry_at None) = false /\
  get_repo_structure (git_cloning repo_demo) repo_url home_repo None None None None
  = Ok (Some demo_tree).
Proof. repeat split; vm_compute; reflexivity. Qed.

(** Witness of C3: the root of [repo_locked] lists a directory whose
    listing is denied. *)
Lemma permission_denied_aborts_traversal_witness :
  _build_tree home_repo None None DEFAULT_EXCLUDES
    (under home_repo []) repo_locked 0
  = Raise PermissionError.
Proof.
  refine (proj2 (@permission_denied_aborts_traversal latin1 gitwildmatch home_repo None None
                   DEFAULT_EXCLUDES [] (listing repo_locked) 0 _ _ _)
            ("private", FsDir false [("key.pem", FsFile (Ok []))]) _ _).
  - reflexivity.
  - unfold passes_filters. repeat split; reflexivity.
  - reflexivity.
  - simpl. tauto.
  - vm_compute. reflexivity.
Defined.

(** C3 fails as stated: with one directory whose listing is denied the
    whole call raises, and no tree with the remaining entries is
    returned. *)
Lemma permission_denied_returns_no_tree :
  get_repo_structure no_git repo_url home_repo (Some repo_locked) None None None
  = Raise PermissionError /\
  forall t,
    get_repo_structure no_git repo_url home_repo (Some repo_locked) None None None
    <> Ok t.
Proof.
  assert (H : get_repo_structure no_git repo_url home_repo (Some repo_locked)
                None None None = Raise PermissionError)
    by (vm_compute; reflexivity).
  split; [exact H|]. intros t E. rewrite H in E. discriminate.
Qed.

(** Witness of C4: names whose order depends on the lower-casing. *)
Lemma children_dirs_then_files_sorted_witness :
  _build_tree home_repo None None DEFAULT_EXCLUDES home_repo repo_accents 0
  = Ok (Some accents_tree) /\
  TreeAll children_ordered accents_tree.
Proof.
  assert (H : _build_tree home_repo None None DEFAULT_EXCLUDES home_repo
                repo_accents 0
              = Ok (Some accents_tree)) by (vm_compute; reflexivity).
  split; [exact H|].
  exact (@children_dirs_then_files_sorted latin1 gitwildmatch home_repo None None
           DEFAULT_EXCLUDES home_repo repo_accents 0 accents_tree H).
Defined.

(** Witness of C5: at depth 0 with [max_depth = 0] even a root whose
    listing is denied is returned as a bare directory node. *)
Lemma directory_at_max_depth_has_no_children_witness :
  _build_tree home_repo None (Some 0) DEFAULT_EXCLUDES
    home_repo (FsDir false [("key.pem", FsFile (Ok []))]) 0
  = Ok (Some (mkNode "repo" Directory None)).
Proof.
  exact (proj1 (@directory_at_max_depth_has_no_children latin1 gitwildmatch no_git repo_url
                  home_repo None None home_repo None DEFAULT_EXCLUDES 0)
           home_repo false [("key.pem", FsFile (Ok []))] eq_refl eq_refl).
Defined.

(** Witness of C6. *)
Lemma emitted_nodes_passed_filters_witness :
  _build_tree home_repo None None DEFAULT_EXCLUDES home_repo repo_demo 0
  = Ok (Some demo_tree) /\
  Emitted home_repo None DEFAULT_EXCLUDES home_repo repo_demo demo_tree /\
  TreeAll file_is_leaf demo_tree.
Proof.
  assert (H : _build_tree home_repo None None DEFAULT_EXCLUDES home_repo repo_demo 0
              = Ok (Some demo_tree)) by (vm_compute; reflexivity).
  split; [exact H|].
  exact (@emitted_nodes_passed_filters latin1 gitwildmatch home_repo None None
           DEFAULT_EXCLUDES home_repo repo_demo 0 demo_tree H).
Defined.

(** C7. The last rule that applies to a path decides.  With the lines
    [*.log] and [!keep.log] in this order [keep.log] is not ignored and
    [other.log] is, at the root and below it; without the second line, or with the two lines the
    other way round, [keep.log] is ignored; and the tree of a repository
    with this ignore file holds [keep.log] and not [other.log]. *)
Theorem later_ignore_rules_override_earlier :
  (forall rules r file,
     GitWildMatch.match_rules (rules ++ [r]) file =
     if GitWildMatch.applies r
          (GitWildMatch.split_on "/" (list_ascii_of_string file))
     then negb (GitWildMatch.negated r)
     else GitWildMatch.match_rules rules file) /\
  from_lines ["*.log"; "!keep.log"]
  = Ok (GitWildMatch.compile ["*.log"; "!keep.log"]) /\
  (forall repo_root,
     _is_ignored (under repo_root ["keep.log"])
       (Some (GitWildMatch.compile ["*.log"; "!keep.log"])) repo_root = Ok false /\
     _is_ignored (under repo_root ["other.log"])
       (Some (GitWildMatch.compile ["*.log"; "!keep.log"])) repo_root = Ok true /\
     _is_ignored (under repo_root ["logs"; "keep.log"])
       (Some (GitWildMatch.compile ["*.log"; "!keep.log"])) repo_root = Ok false /\
     _is_ignored (under repo_root ["logs"; "other.log"])
       (Some (GitWildMatch.compile ["*.log"; "!keep.log"])) repo_root = Ok true /\
     _is_ignored (under repo_root ["keep.log"])
       (Some (GitWildMatch.compile ["*.log"])) repo_root = Ok true /\
     _is_ignored (under repo_root ["keep.log"])
       (Some (GitWildMatch.compile ["!keep.log"; "*.log"])) repo_root = Ok true) /\
  get_repo_structure no_git repo_url home_repo (Some repo_logs) None None None
  = Ok (Some (mkNode "repo" Directory
                (Some [mkNode ".gitignore" File None;
                       mkNode "keep.log" File None]))).
Proof.
  split; [|split; [reflexivity|split]].
  - intros rules r file. unfold GitWildMatch.match_rules.
    now rewrite fold_left_app.
  - intros repo_root. rewrite !is_ignored_under. repeat split.
  - vm_compute. reflexivity.
Qed.

(** Witness of C8: two directories of the root and two files of [src]
    are listed the other way round. *)
Lemma build_independent_of_listing_order_witness :
  same_snapshot repo_demo repo_demo_relisted /\
  case_distinct repo_demo = true /\
  _build_tree home_repo None None DEFAULT_EXCLUDES home_repo repo_demo 0
  = _build_tree home_repo None None DEFAULT_EXCLUDES home_repo repo_demo_relisted 0.
Proof.
  assert (H : same_snapshot repo_demo repo_demo_relisted).
  { unfold repo_demo, repo_demo_relisted, dot_git. apply same_dir.
    eapply same_trans.
    - apply same_cons; [apply same_entry|].
      apply same_cons; [apply same_entry|]. apply same_swap.
    - apply same_cons; [apply same_entry|].
      apply same_cons; [apply same_entry|].
      apply same_cons; [apply same_entry|].
      apply same_cons; [apply same_dir, same_swap|].
      apply same_cons; [apply same_entry|apply same_nil]. }
  split; [exact H|]. split; [reflexivity|].
  exact (proj1 (@build_independent_of_listing_order latin1 gitwildmatch home_repo
                  None None DEFAULT_EXCLUDES repo_demo repo_demo_relisted
                  home_repo 0) H eq_refl).
Defined.

(** Whatever [str.lower] does outside ASCII, [readme] and [README] have
    the same sort key and are left in listing order. *)
Lemma equal_keys_keep_listing_order {Str : PyStr} :
  _build_tree home_repo None None DEFAULT_EXCLUDES home_repo repo_case_1 0
  = Ok (Some (mkNode "repo" Directory
                (Some [mkNode "readme" File None; mkNode "README" File None]))) /\
  _build_tree home_repo None None DEFAULT_EXCLUDES home_repo repo_case_2 0
  = Ok (Some (mkNode "repo" Directory
                (Some [mkNode "README" File None; mkNode "readme" File None]))).
Proof.
  assert (H1 : lower "readme" = "readme") by (now rewrite lower_on_ascii).
  assert (H2 : lower "README" = "readme") by (now rewrite lower_on_ascii).
  split; rewrite _build_tree_eq; simpl;
    unfold gather_children, visit_key, visit_name; simpl;
    rewrite ?H1, ?H2; reflexivity.
Qed.

(** C8 fails as stated: [readme] and [README] have the same sort key, the
    stable sort keeps them in listing order, and the two listings of the
    same directory give two different trees. *)
Lemma listing_order_shows_between_equal_keys :
  same_snapshot repo_case_1 repo_case_2 /\
  _build_tree home_repo None None DEFAULT_EXCLUDES home_repo repo_case_1 0
  <> _build_tree home_repo None None DEFAULT_EXCLUDES home_repo repo_case_2 0.
Proof.
  split.
  - apply same_dir, same_swap.
  - vm_compute. discriminate.
Qed.

(** Witness of C9: the call on [src] in a run on [repo_demo] with
    [max_depth = 1]. *)
Lemma depth_cut_never_taken_witness :
  depth_cut (Some 1) (0 + 1) = false.
Proof.
  refine (proj1 (@depth_cut_never_taken latin1 gitwildmatch home_repo None (Some 1)
            DEFAULT_EXCLUDES repo_demo
            (joinpath home_repo "src") _ (0 + 1) _
            (@Invoked_child gitwildmatch home_repo None (Some 1) DEFAULT_EXCLUDES
               repo_demo home_repo repo_demo 0
               ("src", FsDir true
                         [ ("util.py", FsFile (Ok []));
                           ("Main.py", FsFile (Ok []));
                           ("node_modules", FsDir true [("b.txt", FsFile (Ok []))]);
                           ("core", FsDir true [("io.py", FsFile (Ok []))]) ])
               (Invoked_root _ _ _ _ _) _ _))).
  - intros m E. inversion E. lia.
  - unfold enumerates, passes_filters, repo_demo.
    repeat split; try reflexivity. eexists. reflexivity.
  - simpl. tauto.
Defined.

(** Witness of C10: an existing clone without ignore file and
    [max_depth = -1]. *)
Lemma negative_max_depth_returns_None_witness :
  -1 < 0 /\
  get_repo_structure no_git repo_url home_repo (Some repo_demo) None (Some (-1)) None
  = Ok None.
Proof.
  assert (H : -1 < 0) by lia.
  split; [exact H|].
  exact (proj1 (proj2 (proj2 (@negative_max_depth_returns_None latin1 gitwildmatch
                                 no_git repo_url home_repo (Some repo_demo) None
                                 (-1) H)))
           None None eq_refl eq_refl).
Defined.

(** C10 fails as stated: on an existing clone whose ignore file cannot be
    opened, or holds a line that is no rule, [get_repo_structure] with
    [max_depth = -1] raises instead of returning [None]. *)
Lemma negative_max_depth_still_reads_gitignore :
  get_repo_structure no_git repo_url home_repo (Some repo_ignore_denied) None
    (Some (-1)) None
  = Raise PermissionError /\
  get_repo_structure no_git repo_url home_repo (Some repo_ignore_invalid) None
    (Some (-1)) None
  = Raise GitIgnorePatternError.
Proof. split; vm_compute; reflexivity. Qed.

(* ================================================================== *)
(** * Further properties: the exclusion lists *)

(** X1. The list [get_repo_structure] works with holds the three default
    names whatever the caller passes, holds nothing but the defaults and
    the names of the caller, and holds each name once when the caller
    passes a list. *)
Theorem merged_excludes_members (extra : option (list string)) (x : string) :
  (In x DEFAULT_EXCLUDES -> In x (merged_excludes extra)) /\
  (In x (merged_excludes extra) <->
   In x DEFAULT_EXCLUDES \/ exists l, extra = Some l /\ In x l) /\
  (forall l, extra = Some l -> NoDup (merged_excludes extra)).
Proof.
  destruct extra as [l|]; simpl; unfold list_set.
  - split; [|split].
    + intros H. apply nodup_In, in_or_app. now right.
    + rewrite nodup_In, in_app_iff. split.
      * intros [H|H]; [right; eauto|now left].
      * intros [H|[l' [E H]]]; [now right|]. inversion E; subst. now left.
    + intros l' _. apply NoDup_nodup.
  - split; [auto|split].
    + split; [auto|]. intros [H|[l [E _]]]; [assumption|discriminate].
    + intros l E. discriminate.
Qed.

(** X2. Every preset of [PROJECT_EXCLUDES] holds the defaults, holds each
    name once, and merging it with the defaults in [get_repo_structure]
    adds and removes no name. *)
Theorem project_excludes_presets (kind : string) (preset : list string) :
  PROJECT_EXCLUDES kind = Some preset ->
  (forall x, In x DEFAULT_EXCLUDES -> In x preset) /\
  NoDup preset /\
  (forall x, In x (merged_excludes (Some preset)) <-> In x preset).
Proof.
  intros H0.
  assert (Hshape : exists l, preset = list_set (DEFAULT_EXCLUDES ++ l)).
  { revert H0. unfold PROJECT_EXCLUDES.
    destruct (String.eqb kind "python");
      [intros [= <-]; now exists PYTHON_EXCLUDES|].
    destruct (String.eqb kind "node");
      [intros [= <-]; now exists NODE_EXCLUDES|].
    destruct (String.eqb kind "java");
      [intros [= <-]; now exists JAVA_EXCLUDES|discriminate]. }
  destruct Hshape as [l ->]. unfold list_set.
  assert (Hdef : forall x, In x DEFAULT_EXCLUDES ->
                           In x (nodup string_dec (DEFAULT_EXCLUDES ++ l))).
  { intros x Hx. apply nodup_In, in_or_app. now left. }
  split; [exact Hdef|]. split; [apply NoDup_nodup|].
  intros x. simpl. unfold list_set. rewrite nodup_In, in_app_iff.
  split; [intros [Hx|Hx]; auto|auto].
Qed.

Lemma project_excludes_presets_witness :
  PROJECT_EXCLUDES "python" = Some (list_set (DEFAULT_EXCLUDES ++ PYTHON_EXCLUDES)) /\
  NoDup (list_set (DEFAULT_EXCLUDES ++ PYTHON_EXCLUDES)).
Proof.
  assert (H : PROJECT_EXCLUDES "python"
              = Some (list_set (DEFAULT_EXCLUDES ++ PYTHON_EXCLUDES)))
    by reflexivity.
  split; [exact H|].
  exact (proj1 (proj2 (project_excludes_presets "python" _ H))).
Defined.

(* ================================================================== *)
(** * Further properties: cloning *)

Lemma substring_whole (s : string) : substring 0 (String.length s) s = s.
Proof. induction s as [|c s IH]; simpl; [reflexivity|now rewrite IH]. Qed.

(** X3. With a non-empty token, [clone_repo_with_progress] raises
    [ValueError] for a URL that does not start with [https://], without
    calling git, and for a URL [https://rest] clones from
    [https://token@rest]; without a token, or with an empty one, it clones
    from the URL as given. *)
Theorem clone_url_with_token (git : GitClient) (st : option FsNode)
    (c : ascii) (tok rest github_url : string) :
  (String.prefix "https://" github_url = false ->
   clone_repo_with_progress git github_url st (Some (String c tok))
   = Raise ValueError) /\
  clone_repo_with_progress git ("https://" ++ rest)%string st (Some (String c tok))
  = clone_from git ("https://" ++ String c tok ++ "@" ++ rest)%string st /\
  clone_repo_with_progress git github_url st None = clone_from git github_url st /\
  clone_repo_with_progress git github_url st (Some "") = clone_from git github_url st.
Proof.
  split; [|split; [|split; reflexivity]].
  - intros H. unfold clone_repo_with_progress. now rewrite H.
  - unfold clone_repo_with_progress.
    assert (Hp : String.prefix "https://" ("https://" ++ rest)%string = true).
    { simpl. now destruct rest. }
    rewrite Hp. simpl String.length. simpl Nat.sub.
    simpl substring. rewrite Nat.sub_0_r, substring_whole. reflexivity.
Qed.

Section ExistingClone.
Context {Str : PyStr} {L : PathSpecLib}.

(** X4. On a path that exists and holds [.git], [get_repo_structure] does
    not clone: its result is what reading the ignore file and traversing
    what is there give, whatever the git client, the URL and the token;
    and after a clone that left a [.git] behind, a second call gives the
    result of the first without cloning again. *)
Theorem existing_clone_is_not_recloned (git git' : GitClient)
    (github_url github_url' : string) (clone_path : Path)
    (st st' : option FsNode) (token token' : option string)
    (max_depth : option Z) (extra : option (list string)) :
  (path_exists st && path_exists (child_state st ".git") = true ->
   get_repo_structure git github_url clone_path st token max_depth extra
   = (pathspec_obj <- _get_pathspec st ;;
      build_root clone_path st pathspec_obj max_depth (merged_excludes extra))) /\
  (_clone_repo_if_needed git github_url st token = Ok st' ->
   path_exists st' && path_exists (child_state st' ".git") = true ->
   get_repo_structure git' github_url' clone_path st' token' max_depth extra
   = get_repo_structure git github_url clone_path st token max_depth extra).
Proof.
  assert (Hhere : forall g u s t,
             path_exists s && path_exists (child_state s ".git") = true ->
             get_repo_structure g u clone_path s t max_depth extra
             = (pathspec_obj <- _get_pathspec s ;;
                build_root clone_path s pathspec_obj max_depth
                  (merged_excludes extra))).
  { intros g u s t H. unfold get_repo_structure.
    rewrite (clone_not_needed g u s t H). reflexivity. }
  split; [apply Hhere|].
  intros Hc Hgit. rewrite (Hhere git' github_url' st' token' Hgit).
  unfold get_repo_structure. now rewrite Hc.
Qed.

(** X15. When the clone path is a symbolic link, for instance a link to
    an existing clone, and the clone step returns, [get_repo_structure]
    returns no node: it returns [None], the root being dropped by the
    symlink test, unless reading and compiling the ignore file found
    through the link raises, and then it raises that exception. *)
Theorem symlinked_clone_path_returns_None (git : GitClient) (github_url : string)
    (clone_path : Path) (st st' : option FsNode) (token : option string)
    (max_depth : option Z) (extra : option (list string)) :
  _clone_repo_if_needed git github_url st token = Ok st' ->
  is_symlink (entry_at st') = true ->
  get_repo_structure git github_url clone_path st token max_depth extra
  = (pathspec_obj <- _get_pathspec st' ;; Ok None).
Proof.
  intros Hc Hs. unfold get_repo_structure. rewrite Hc. simpl.
  destruct (_get_pathspec st') as [ps|x]; simpl; [|reflexivity].
  unfold build_root. rewrite _build_tree_eq.
  destruct (depth_cut max_depth 0); [reflexivity|].
  destruct (is_excluded (merged_excludes extra) clone_path); [reflexivity|].
  rewrite <- (under_nil clone_path) at 1. rewrite is_ignored_under. simpl.
  rewrite Hs. now destruct (match ps with Some _ => _ | None => _ end).
Qed.

End ExistingClone.

Lemma existing_clone_is_not_recloned_witness :
  get_repo_structure (git_cloning repo_logs) repo_url home_repo (Some repo_demo)
    (Some "secret") None None
  = get_repo_structure (git_cloning repo_demo) repo_url home_repo None None None None.
Proof.
  exact (proj2 (@existing_clone_is_not_recloned latin1 gitwildmatch
                  (git_cloning repo_demo) (git_cloning repo_logs)
                  repo_url repo_url home_repo None (Some repo_demo)
                  None (Some "secret") None None)
           eq_refl eq_refl).
Defined.

Lemma symlinked_clone_path_returns_None_witness :
  get_repo_structure no_git repo_url home_repo (Some link_to_repo_demo) None None None
  = Ok None.
Proof.
  exact (@symlinked_clone_path_returns_None latin1 gitwildmatch no_git repo_url
           home_repo (Some link_to_repo_demo) (Some link_to_repo_demo) None None
           None eq_refl eq_refl).
Defined.

Lemma merged_excludes_members_witness :
  In ".git" DEFAULT_EXCLUDES /\ In ".git" (merged_excludes (Some ["dist"; ".git"])).
Proof.
  assert (H : In ".git" DEFAULT_EXCLUDES) by (simpl; tauto).
  split; [exact H|].
  exact (proj1 (merged_excludes_members (Some ["dist"; ".git"]) ".git") H).
Defined.

Lemma clone_url_with_token_witness :
  clone_repo_with_progress no_git "git@github.com:org/repo.git" None (Some "secret")
  = Raise ValueError.
Proof.
  exact (proj1 (clone_url_with_token no_git None "s" "ecret" "org/repo.git"
                  "git@github.com:org/repo.git") eq_refl).
Defined.

(* ================================================================== *)
(** * Further properties: the ignore test *)

Lemma strip_prefix_Ok (names root rel : list string) :
  strip_prefix names root = Ok rel -> names = root ++ rel.
Proof.
  revert names. induction root as [|r root IH]; simpl; intros names H.
  - now inversion H.
  - destruct names as [|s names]; [discriminate|].
    destruct (String.eqb r s) eqn:E; [|discriminate].
    apply String.eqb_eq in E. subst. now rewrite (IH _ H).
Qed.

Lemma strip_prefix_Raise (names root : list string) (x : Exn) :
  strip_prefix names root = Raise x -> x = ValueError.
Proof.
  revert names. induction root as [|r root IH]; simpl; intros names H.
  - discriminate.
  - destruct names as [|s names]; [now inversion H|].
    destruct (String.eqb r s); [eauto|now inversion H].
Qed.

Lemma relative_to_Ok (p root : Path) (rel : list string) :
  relative_to p root = Ok rel -> p = under root rel.
Proof.
  unfold relative_to, under. destruct p as [a t], root as [a' t']; simpl.
  destruct (String.eqb a a') eqn:E; [|discriminate].
  apply String.eqb_eq in E. intros H. apply strip_prefix_Ok in H. now subst.
Qed.

Section IgnoreTest.
Context {Str : PyStr} {L : PathSpecLib}.

(** X5. Without a pathspec [_is_ignored] answers [False] for every path;
    with one it hands [match_file] the path relative to the root, ["."] for
    the root itself and the names joined by ["/"] below it, and raises
    [ValueError], and nothing else, exactly for a path that is not under
    the root. *)
Theorem _is_ignored_cases (repo_root : Path) (ps : PathSpec) :
  (forall p, _is_ignored p None repo_root = Ok false) /\
  _is_ignored repo_root (Some ps) repo_root = Ok (match_file ps ".") /\
  (forall nm rel,
     _is_ignored (under repo_root (nm :: rel)) (Some ps) repo_root
     = Ok (match_file ps (String.concat "/" (nm :: rel)))) /\
  (forall p,
     (forall rel, p <> under repo_root rel) <->
     _is_ignored p (Some ps) repo_root = Raise ValueError) /\
  (forall p x, _is_ignored p (Some ps) repo_root = Raise x -> x = ValueError).
Proof.
  split; [reflexivity|]. split; [|split; [|split]].
  - rewrite <- (under_nil repo_root) at 1. now rewrite is_ignored_under.
  - intros nm rel. now rewrite is_ignored_under.
  - intros p. unfold _is_ignored.
    destruct (relative_to p repo_root) as [rel|x] eqn:E; simpl.
    + split; [|discriminate]. intros H. elim (H rel). now apply relative_to_Ok.
    + split.
      * intros _. f_equal. revert E. unfold relative_to.
        destruct (String.eqb (anchor p) (anchor repo_root)).
        -- apply strip_prefix_Raise.
        -- now intros [= <-].
      * intros _ rel ->. rewrite relative_to_under in E. discriminate.
  - intros p x. unfold _is_ignored, relative_to.
    destruct (String.eqb (anchor p) (anchor repo_root)); simpl.
    + destruct (strip_prefix (tail p) (tail repo_root)) as [rel|y] eqn:E; simpl.
      * discriminate.
      * intros [= <-]. exact (strip_prefix_Raise _ _ _ E).
    + now intros [= <-].
Qed.

End IgnoreTest.

(* ================================================================== *)
(** * Further properties: clone progress *)

Lemma update_stdout (self : CloneProgress) (r : ProgressReport) :
  stdout (update self r) = stdout self ++ printed [r].
Proof.
  unfold update, printed; simpl. destruct (message r); simpl.
  - now rewrite app_nil_r.
  - reflexivity.
Qed.

Lemma updates_stdout (rs : list ProgressReport) (self : CloneProgress) :
  stdout (updates self rs) = stdout self ++ printed rs.
Proof.
  unfold updates. revert self. induction rs as [|r rs IH]; intros self; simpl.
  - now rewrite app_nil_r.
  - rewrite IH, update_stdout, <- app_assoc. f_equal.
    unfold printed; simpl. now destruct (negb (String.eqb (message r) "")).
Qed.

Lemma updates_bar (rs : list ProgressReport) (self : CloneProgress) (b : nat) :
  _bar self = Some b -> _bar (updates self rs) = Some (b + length rs)%nat.
Proof.
  unfold updates. revert self b.
  induction rs as [|r rs IH]; intros self b Hb; simpl.
  - now rewrite Nat.add_0_r.
  - rewrite (IH (update self r) (S b)).
    + f_equal. lia.
    + unfold update; simpl. now rewrite Hb.
Qed.

Lemma updates_no_bar (rs : list ProgressReport) (self : CloneProgress) :
  _bar self = None -> _bar (updates self rs) = None.
Proof.
  unfold updates. revert self. induction rs as [|r rs IH]; intros self Hb; simpl.
  - assumption.
  - apply IH. unfold update; simpl. now rewrite Hb.
Qed.

(** X14. Over any sequence of progress reports the handler calls the bar
    once per report, whatever the report holds, and prints the non-empty
    messages in order and nothing else; before [set_bar] there is no bar
    and none appears. *)
Theorem clone_progress_updates (out : list string) (bar : nat)
    (rs : list ProgressReport) :
  _bar (updates (set_bar (CloneProgress_init out) bar) rs) = Some (bar + length rs)%nat /\
  stdout (updates (set_bar (CloneProgress_init out) bar) rs) = out ++ printed rs /\
  _bar (updates (CloneProgress_init out) rs) = None /\
  stdout (updates (CloneProgress_init out) rs) = out ++ printed rs.
Proof.
  split; [now apply updates_bar|]. split; [now rewrite updates_stdout|].
  split; [now apply updates_no_bar|now rewrite updates_stdout].
Qed.

(* ================================================================== *)
(** * Further properties: the tree builder *)

Lemma gather_contributes (vs : list Visit) :
  gather (filter contributes vs) = gather vs.
Proof.
  induction vs as [|v vs IH]; simpl; [reflexivity|].
  unfold contributes at 1.
  destruct (visit_call v) as [[n|]|x] eqn:E; simpl; rewrite ?E; simpl;
    rewrite ?IH; try reflexivity.
  now destruct (gather vs).
Qed.

Lemma gather_children_contributes {Str : PyStr} (vs : list Visit) :
  gather_children (filter contributes vs) = gather_children vs.
Proof.
  rewrite !gather_children_consumed, <- (gather_contributes (consumed vs)).
  f_equal. unfold consumed.
  now rewrite filter_app, !filter_sort, !(filter_swap _ contributes).
Qed.

Lemma last_In (A : Type) (l : list A) (d : A) : l <> [] -> In (last l d) l.
Proof.
  induction l as [|a l IH]; [congruence|]. intros _.
  destruct l as [|b l]; [now left|].
  right. apply IH. discriminate.
Qed.

Lemma parts_joinpath (p : Path) (nm : string) :
  parts (joinpath p nm) = parts p ++ [nm].
Proof. unfold parts, joinpath; simpl. now destruct (String.eqb (anchor p) ""). Qed.

Lemma list_max_In (l : list nat) (x : nat) : In x l -> (x <= list_max l)%nat.
Proof.
  intros H. assert (Hall : Forall (fun k => (k <= list_max l)%nat) l)
    by now apply list_max_le.
  rewrite Forall_forall in Hall. now apply Hall.
Qed.

Lemma TreeAll_impl (P Q : Node -> Prop) (n : Node) :
  (forall c, P c -> Q c) -> TreeAll P n -> TreeAll Q n.
Proof.
  intros HPQ. induction 1 as [n Hn _ IH]. constructor; auto.
Qed.

Section BuildExtras.
Context {Str : PyStr} {L : PathSpecLib}.
Variable repo_root : Path.
Variable pathspec_obj : option PathSpec.
Variable max_depth : option Z.
Variable exclude_patterns : list string.

#[local] Abbreviation build :=
  (_build_tree repo_root pathspec_obj max_depth exclude_patterns).
#[local] Abbreviation visit_of :=
  (visit repo_root pathspec_obj max_depth exclude_patterns).

(** X6. No node of a returned tree carries an empty list of children: the
    field is left out when nothing was gathered. *)
Theorem children_field_never_empty (p : Path) (e : FsNode) (d : Z) (n : Node) :
  build p e d = Ok (Some n) ->
  TreeAll (fun c => children c <> Some []) n.
Proof.
  apply build_TreeAll. clear. intros p e d n H.
  apply build_Some in H. destruct H as (_ & _ & _ & _ & H).
  destruct e; try contradiction.
  - subst. discriminate.
  - destruct H as [[_ ->]|(_ & _ & cs & _ & ->)]; [discriminate|].
    destruct cs; discriminate.
Qed.

(** X7. When a directory is enumerated and a node comes back, the call on
    every entry of the listing returned, and the children are the nodes
    these calls returned, each once: sorting loses and repeats nothing. *)
Theorem children_are_the_returned_nodes (p : Path) (readable : bool)
    (entries : list (string * FsNode)) (d : Z) (n : Node) :
  build p (FsDir readable entries) d = Ok (Some n) ->
  gathers max_depth d = true ->
  Permutation (child_list n) (nodes_of (map (visit_of p d) entries)) /\
  Forall (fun ne => exists o,
            build (joinpath p (fst ne)) (snd ne) (d + 1) = Ok o) entries.
Proof.
  intros H Hg. apply build_Some in H. destruct H as (_ & _ & _ & _ & H).
  destruct H as [[Hg' _]|(_ & _ & cs & Hcs & ->)]; [congruence|].
  rewrite gather_children_consumed in Hcs. split.
  - replace (child_list _) with cs by (now destruct cs).
    rewrite (gather_nodes_of _ _ Hcs). unfold nodes_of.
    apply Permutation_flat_map, consumed_perm.
  - rewrite Forall_forall. intros ne Hne.
    apply (gather_Ok_calls _ _ Hcs (visit_of p d ne)).
    apply consumed_In, in_map. assumption.
Qed.

Lemma build_drop_entry (p : Path) (readable : bool)
    (es1 es2 : list (string * FsNode)) (ne : string * FsNode) (d : Z) :
  build (joinpath p (fst ne)) (snd ne) (d + 1) = Ok None ->
  build p (FsDir readable (es1 ++ ne :: es2)) d
  = build p (FsDir readable (es1 ++ es2)) d.
Proof.
  intros H. rewrite !_build_tree_eq.
  replace (gather_children (map (visit_of p d) (es1 ++ ne :: es2)))
    with (gather_children (map (visit_of p d) (es1 ++ es2))); [reflexivity|].
  rewrite <- (gather_children_contributes (map (visit_of p d) (es1 ++ es2))).
  rewrite <- (gather_children_contributes (map (visit_of p d) (es1 ++ ne :: es2))).
  f_equal. rewrite !map_app, !filter_app. simpl.
  unfold contributes at 4. unfold visit_call, visit at 4. simpl. now rewrite H.
Qed.

(** X8. An entry for which the call returns [None], because it is
    excluded, ignored, cut, a link or of another kind, leaves no trace:
    taking it out of the listing changes neither the node returned for the
    directory nor the exception raised. *)
Theorem entry_without_node_is_invisible (p : Path) (readable : bool)
    (es1 es2 : list (string * FsNode)) (ne : string * FsNode) (d : Z) :
  build (joinpath p (fst ne)) (snd ne) (d + 1) = Ok None ->
  build p (FsDir readable (es1 ++ ne :: es2)) d
  = build p (FsDir readable (es1 ++ es2)) d.
Proof. apply build_drop_entry. Qed.

Lemma build_link_or_other (rel : list string) (e : FsNode) (d : Z) :
  is_symlink e = true \/ e = FsOther ->
  build (under repo_root rel) e d = Ok None.
Proof.
  intros He. rewrite _build_tree_eq, is_ignored_under. simpl.
  destruct (depth_cut max_depth d); [reflexivity|].
  destruct (is_excluded exclude_patterns (under repo_root rel)); [reflexivity|].
  destruct (match pathspec_obj with Some _ => _ | None => _ end); [reflexivity|].
  destruct He as [He| ->]; [now rewrite He|reflexivity].
Qed.

(** X9. Below the repository root a symbolic link, whatever it points to,
    and an entry that is neither file nor directory change nothing: the
    result for the directory holding it is the result without it. *)
Theorem links_and_special_files_are_invisible (rel : list string)
    (readable : bool) (es1 es2 : list (string * FsNode)) (nm : string)
    (e : FsNode) (d : Z) :
  is_symlink e = true \/ e = FsOther ->
  build (under repo_root rel) (FsDir readable (es1 ++ (nm, e) :: es2)) d
  = build (under repo_root rel) (FsDir readable (es1 ++ es2)) d.
Proof.
  intros He. apply build_drop_entry. simpl.
  rewrite joinpath_under. now apply build_link_or_other.
Qed.

Lemma is_excluded_joinpath (p : Path) (nm : string) :
  is_excluded exclude_patterns (joinpath p nm)
  = is_excluded exclude_patterns p || mem nm exclude_patterns.
Proof.
  unfold is_excluded. rewrite parts_joinpath, existsb_app. simpl.
  now rewrite orb_false_r.
Qed.

Lemma build_names_not_excluded (e : FsNode) :
  forall p d n,
    tail p <> [] ->
    build p e d = Ok (Some n) ->
    TreeAll (fun c => ~ In (name c) exclude_patterns) n.
Proof.
  induction e as [lines|readable entries IH|target _|] using FsNode_ind;
    intros p d n Hp H;
    (constructor;
     [ rewrite (build_Some_name _ _ _ _ _ _ _ _ H); intros Hin;
       apply build_Some in H; destruct H as (_ & Hex & _);
       assert (Hex' : is_excluded exclude_patterns p = true);
       [ apply is_excluded_spec; exists (path_name p); split; [|exact Hin];
         unfold parts; destruct (String.eqb (anchor p) "");
         [|right]; now apply last_In
       | congruence ]
     | intros cs c Hcs Hc;
       destruct (child_origin _ _ _ _ _ _ _ _ _ _ H Hcs Hc)
         as (r & es & ne & E & Hne & Hb);
       try discriminate ]).
  inversion E; subst. rewrite Forall_forall in IH.
  apply (IH ne Hne (joinpath p (fst ne)) (d + 1) c); [|exact Hb].
  simpl. intros Habs. now apply app_eq_nil in Habs.
Qed.

(** X10. Exclusion is inherited and shows in the names: below an excluded
    path every path is excluded, and in a tree returned for a path with at
    least one name no node bears a name of the exclusion list. *)
Theorem excluded_names_never_appear (p : Path) (e : FsNode) (d : Z) :
  (forall rel,
     is_excluded exclude_patterns p = true ->
     is_excluded exclude_patterns (under p rel) = true) /\
  (forall n,
     tail p <> [] ->
     build p e d = Ok (Some n) ->
     TreeAll (fun c => ~ In (name c) exclude_patterns) n).
Proof.
  split.
  - intros rel H. apply is_excluded_spec in H. destruct H as [part [Hp Hm]].
    apply is_excluded_spec. exists part. split; [|exact Hm].
    rewrite parts_under. apply in_or_app. now left.
  - intros n Hp H. exact (build_names_not_excluded e p d n Hp H).
Qed.

(** X11. With [max_depth = m], a tree returned by the call at depth [d]
    has at most [m - d] levels of children. *)
Theorem returned_tree_depth_bounded (m : Z) (e : FsNode) :
  max_depth = Some m ->
  forall p d n,
    build p e d = Ok (Some n) ->
    d + Z.of_nat (node_height n) <= m.
Proof.
  intros Em.
  induction e as [lines|readable entries IH|target _|] using FsNode_ind;
    intros p d n H;
    pose proof (build_Some _ _ _ _ _ _ _ _ H) as (Hcut & _ & _ & _ & Hn);
    unfold depth_cut in Hcut; rewrite Em in Hcut; apply Z.ltb_ge in Hcut;
    try contradiction.
  - subst. simpl. lia.
  - destruct Hn as [[_ ->]|(Hg & _ & cs & _ & ->)]; [simpl; lia|].
    unfold gathers in Hg. rewrite Em in Hg. apply Z.ltb_lt in Hg.
    destruct cs as [|c0 cs]; [simpl; lia|].
    assert (Hall : Forall (fun k => (k <= Z.to_nat (m - d - 1))%nat)
                     (map node_height (c0 :: cs))).
    { rewrite Forall_forall. intros k Hk. apply in_map_iff in Hk.
      destruct Hk as [c [<- Hc]].
      destruct (child_origin _ _ _ _ _ _ _ _ _ _ H eq_refl Hc)
        as (r & es & ne & E & Hne & Hb).
      inversion E; subst. rewrite Forall_forall in IH.
      specialize (IH ne Hne _ _ _ Hb). lia. }
    apply list_max_le in Hall.
    change (node_height (mkNode (path_name p) Directory (Some (c0 :: cs))))
      with (S (list_max (map node_height (c0 :: cs)))).
    lia.
Qed.

End BuildExtras.

Section DepthLimit.
Context {Str : PyStr} {L : PathSpecLib}.
Variable repo_root : Path.
Variable pathspec_obj : option PathSpec.
Variable exclude_patterns : list string.

(** X12. A [max_depth] that is at least the depth of the call plus the
    number of directory levels below the entry limits nothing: the result
    is the one obtained with [max_depth = None]. *)
Theorem large_max_depth_is_no_limit (e : FsNode) :
  forall p d m,
    d + Z.of_nat (fs_height e) <= m ->
    _build_tree repo_root pathspec_obj (Some m) exclude_patterns p e d
    = _build_tree repo_root pathspec_obj None exclude_patterns p e d.
Proof.
  induction e as [lines|readable entries IH|target _|] using FsNode_ind;
    intros p d m Hm; rewrite !_build_tree_eq; unfold depth_cut, gathers;
    assert (Hcut : (m <? d) = false) by (apply Z.ltb_ge; lia);
    rewrite Hcut; try reflexivity.
  assert (Hg : (d <? m) = true).
  { apply Z.ltb_lt. simpl fs_height in Hm. lia. }
  rewrite Hg.
  replace (map (visit repo_root pathspec_obj (Some m) exclude_patterns p d) entries)
    with (map (visit repo_root pathspec_obj None exclude_patterns p d) entries);
    [reflexivity|].
  apply map_ext_in. intros ne Hne. unfold visit. f_equal.
  symmetry. rewrite Forall_forall in IH. apply (IH ne Hne).
  assert (Hh : (fs_height (snd ne)
                <= list_max (map (fun ne => fs_height (snd ne)) entries))%nat).
  { apply list_max_In, in_map_iff. now exists ne. }
  simpl fs_height in Hm. lia.
Qed.

End DepthLimit.

Lemma merged_excludes_in_default (extra : option (list string)) (x : string) :
  (In x DEFAULT_EXCLUDES -> In x (merged_excludes extra)) /\
  (forall l, extra = Some l -> In x l -> In x (merged_excludes extra)).
Proof.
  destruct extra as [l|]; simpl; unfold list_set; split.
  - intros H. apply nodup_In, in_or_app. now right.
  - intros l' [= <-] H. apply nodup_In, in_or_app. now left.
  - auto.
  - intros l [=].
Qed.

Section EntryExtras.
Context {Str : PyStr} {L : PathSpecLib}.
Variable git : GitClient.
Variable github_url : string.
Variable clone_path : Path.
Variable st : option FsNode.
Variable token : option string.
Variable max_depth : option Z.
Variable extra : option (list string).

(** X16. In a tree returned by [get_repo_structure] for a clone path with
    at least one name, no node is called [.git], [node_modules] or [venv],
    and none bears a name of the list passed by the caller. *)
Theorem default_excludes_never_appear (n : Node) :
  tail clone_path <> [] ->
  get_repo_structure git github_url clone_path st token max_depth extra
  = Ok (Some n) ->
  TreeAll (fun c => ~ In (name c) DEFAULT_EXCLUDES /\
                    forall l, extra = Some l -> ~ In (name c) l) n.
Proof.
  intros Hp H. unfold get_repo_structure in H.
  destruct (_clone_repo_if_needed git github_url st token) as [st'|x];
    [|discriminate].
  simpl in H.
  destruct (_get_pathspec st') as [ps|x]; [|discriminate].
  simpl in H. unfold build_root in H.
  apply (build_names_not_excluded _ _ _ _ _ _ _ _ Hp) in H.
  revert H. apply TreeAll_impl. intros c Hc. split.
  - intros Hin. apply Hc.
    now apply (proj1 (merged_excludes_in_default extra (name c))).
  - intros l E Hin. apply Hc.
    exact (proj2 (merged_excludes_in_default extra (name c)) l E Hin).
Qed.


End EntryExtras.

(* ================================================================== *)
(** * Instances of the further properties *)

Lemma _is_ignored_cases_witness :
  (forall rel, venv_repo <> under home_repo rel) /\
  _is_ignored venv_repo (Some (GitWildMatch.compile ["*.log"])) home_repo
  = Raise ValueError.
Proof.
  assert (H : forall rel, venv_repo <> under home_repo rel).
  { intros rel E. unfold venv_repo, home_repo, under in E. simpl in E.
    discriminate. }
  split; [exact H|].
  exact (proj1
           (proj1 (proj2 (proj2 (proj2
              (@_is_ignored_cases gitwildmatch home_repo
                 (GitWildMatch.compile ["*.log"])))))
              venv_repo)
           H).
Defined.

Lemma children_field_never_empty_witness :
  _build_tree home_repo None None DEFAULT_EXCLUDES home_repo repo_demo 0
  = Ok (Some demo_tree) /\
  TreeAll (fun c => children c <> Some []) demo_tree.
Proof.
  assert (H : _build_tree home_repo None None DEFAULT_EXCLUDES home_repo repo_demo 0
              = Ok (Some demo_tree)) by (vm_compute; reflexivity).
  split; [exact H|].
  exact (@children_field_never_empty latin1 gitwildmatch home_repo None None
           DEFAULT_EXCLUDES home_repo repo_demo 0 demo_tree H).
Defined.

Lemma children_are_the_returned_nodes_witness :
  Permutation (child_list demo_tree)
    (nodes_of (map (visit home_repo None None DEFAULT_EXCLUDES home_repo 0)
                 (listing repo_demo))).
Proof.
  refine (proj1 (@children_are_the_returned_nodes latin1 gitwildmatch home_repo None None
                   DEFAULT_EXCLUDES home_repo true (listing repo_demo) 0
                   demo_tree _ _)).
  - vm_compute. reflexivity.
  - reflexivity.
Defined.

Lemma entry_without_node_is_invisible_witness :
  _build_tree home_repo None None DEFAULT_EXCLUDES home_repo
    (FsDir true ([("setup.py", FsFile (Ok []))] ++ dot_git :: tl (tl (listing repo_demo)))) 0
  = _build_tree home_repo None None DEFAULT_EXCLUDES home_repo
      (FsDir true ([("setup.py", FsFile (Ok []))] ++ tl (tl (listing repo_demo)))) 0.
Proof.
  refine (@entry_without_node_is_invisible latin1 gitwildmatch home_repo None None
            DEFAULT_EXCLUDES home_repo true [("setup.py", FsFile (Ok []))]
            (tl (tl (listing repo_demo))) dot_git 0 _).
  vm_compute. reflexivity.
Defined.

Lemma links_and_special_files_are_invisible_witness :
  _build_tree home_repo None None DEFAULT_EXCLUDES (under home_repo [])
    (FsDir true (removelast (listing repo_demo)
                 ++ ("latest", FsSymlink (Some (FsDir true []))) :: [])) 0
  = _build_tree home_repo None None DEFAULT_EXCLUDES (under home_repo [])
      (FsDir true (removelast (listing repo_demo) ++ [])) 0.
Proof.
  refine (@links_and_special_files_are_invisible latin1 gitwildmatch home_repo None None
            DEFAULT_EXCLUDES [] true (removelast (listing repo_demo)) []
            "latest" (FsSymlink (Some (FsDir true []))) 0 _).
  left. reflexivity.
Defined.

Lemma excluded_names_never_appear_witness :
  TreeAll (fun c => ~ In (name c) DEFAULT_EXCLUDES) demo_tree.
Proof.
  refine (proj2 (@excluded_names_never_appear latin1 gitwildmatch home_repo None None
                   DEFAULT_EXCLUDES home_repo repo_demo 0) demo_tree _ _).
  - discriminate.
  - vm_compute. reflexivity.
Defined.

Lemma returned_tree_depth_bounded_witness :
  0 + Z.of_nat (node_height demo_tree_1) <= 1.
Proof.
  refine (@returned_tree_depth_bounded latin1 gitwildmatch home_repo None (Some 1)
            DEFAULT_EXCLUDES 1 repo_demo eq_refl home_repo 0 demo_tree_1 _).
  vm_compute. reflexivity.
Defined.

Lemma large_max_depth_is_no_limit_witness :
  _build_tree home_repo None (Some 3) DEFAULT_EXCLUDES home_repo repo_demo 0
  = _build_tree home_repo None None DEFAULT_EXCLUDES home_repo repo_demo 0.
Proof.
  refine (@large_max_depth_is_no_limit latin1 gitwildmatch home_repo None DEFAULT_EXCLUDES
            repo_demo home_repo 0 3 _).
  vm_compute. discriminate.
Defined.

Lemma default_excludes_never_appear_witness :
  TreeAll (fun c => ~ In (name c) DEFAULT_EXCLUDES /\
                    forall l, Some ["Docs"] = Some l -> ~ In (name c) l)
    (mkNode "repo" Directory
       (Some [ mkNode "src" Directory
                 (Some [ mkNode "core" Directory (Some [mkNode "io.py" File None]);
                         mkNode "Main.py" File None;
                         mkNode "util.py" File None ]);
               mkNode "setup.py" File None ])).
Proof.
  refine (@default_excludes_never_appear latin1 gitwildmatch no_git repo_url home_repo
            (Some repo_demo) None None (Some ["Docs"]) _ _ _).
  - discriminate.
  - vm_compute. reflexivity.
Defined.


(* ================================================================== *)
(** * Further properties: contents and depth *)

Lemma is_dir_erase_contents (e : FsNode) : is_dir (erase_contents e) = is_dir e.
Proof. destruct e; reflexivity. Qed.

Lemma insert_Forall2 {Str : PyStr} (k : nat) (v w : Visit) (vs ws : list Visit) :
  visit_cut k v w -> Forall2 (visit_cut k) vs ws ->
  Forall2 (visit_cut k) (insert visit_key v vs) (insert visit_key w ws).
Proof.
  intros Hvw H. induction H as [|v' w' vs ws Hv' H IH]; simpl.
  - constructor; [assumption|constructor].
  - assert (Ek : visit_key w = visit_key v)
      by (unfold visit_key; now rewrite (proj1 Hvw)).
    assert (Ek' : visit_key w' = visit_key v')
      by (unfold visit_key; now rewrite (proj1 Hv')).
    rewrite Ek, Ek'.
    destruct (String.ltb (visit_key v') (visit_key v)).
    + constructor; assumption.
    + constructor; [assumption|]. constructor; assumption.
Qed.

Lemma sort_Forall2 {Str : PyStr} (k : nat) (vs ws : list Visit) :
  Forall2 (visit_cut k) vs ws ->
  Forall2 (visit_cut k) (sort visit_key vs) (sort visit_key ws).
Proof.
  induction 1; simpl; [constructor|]. now apply insert_Forall2.
Qed.

Lemma filter_Forall2 (k : nat) (f : Visit -> bool) (vs ws : list Visit) :
  (forall v w, visit_cut k v w -> f w = f v) ->
  Forall2 (visit_cut k) vs ws ->
  Forall2 (visit_cut k) (filter f vs) (filter f ws).
Proof.
  intros Hf. induction 1 as [|v w vs ws Hvw H IH]; simpl; [constructor|].
  rewrite (Hf v w Hvw). destruct (f v); [now constructor|assumption].
Qed.

Lemma consumed_Forall2 {Str : PyStr} (k : nat) (vs ws : list Visit) :
  Forall2 (visit_cut k) vs ws ->
  Forall2 (visit_cut k) (consumed vs) (consumed ws).
Proof.
  intros H. unfold consumed. apply Forall2_app; apply sort_Forall2;
    apply filter_Forall2; try assumption;
    intros v w (_ & Hd & _); now rewrite Hd.
Qed.

Lemma gather_Forall2 (k : nat) (vs ws : list Visit) :
  Forall2 (visit_cut k) vs ws ->
  forall ns, gather vs = Ok ns -> gather ws = Ok (map (truncate k) ns).
Proof.
  induction 1 as [|v w vs ws (_ & _ & Hc) H IH]; simpl; intros ns Hg.
  - now inversion Hg.
  - destruct (visit_call v) as [o|x]; simpl in Hg; [|discriminate].
    destruct (gather vs) as [rest|x]; simpl in Hg; [|discriminate].
    rewrite (Hc o eq_refl), (IH rest eq_refl). simpl.
    inversion Hg. now destruct o.
Qed.

Section ContentsAndDepth.
Context {Str : PyStr} {L : PathSpecLib}.
Variable repo_root : Path.
Variable pathspec_obj : option PathSpec.
Variable exclude_patterns : list string.

(** X18. [_build_tree] reads no file: emptying every file of the snapshot
    changes nothing in its result, whatever the depth limit. *)
Theorem build_ignores_file_contents (max_depth : option Z) (e : FsNode) :
  forall p d,
    _build_tree repo_root pathspec_obj max_depth exclude_patterns
      p (erase_contents e) d
    = _build_tree repo_root pathspec_obj max_depth exclude_patterns p e d.
Proof.
  induction e as [lines|readable entries IH|target _|] using FsNode_ind;
    intros p d; try reflexivity.
  rewrite !_build_tree_eq. simpl. rewrite map_map.
  replace (map (fun ne =>
                  visit repo_root pathspec_obj max_depth exclude_patterns p d
                    (fst ne, erase_contents (snd ne))) entries)
    with (map (visit repo_root pathspec_obj max_depth exclude_patterns p d) entries);
    [reflexivity|].
  apply map_ext_in. intros ne Hne. unfold visit. simpl.
  rewrite is_dir_erase_contents. f_equal.
  symmetry. rewrite Forall_forall in IH. apply (IH ne Hne).
Qed.

(** X19. The depth limit only cuts: when the call without limit returns,
    the call at depth [d <= m] with [max_depth = m] returns too, [None]
    for [None] and for a node that node cut below [m - d] levels of
    children. *)
Theorem depth_limit_truncates (m : Z) (e : FsNode) :
  forall p d o,
    d <= m ->
    _build_tree repo_root pathspec_obj None exclude_patterns p e d = Ok o ->
    _build_tree repo_root pathspec_obj (Some m) exclude_patterns p e d
    = Ok (option_map (truncate (Z.to_nat (m - d))) o).
Proof.
  induction e as [lines|readable entries IH|target _|] using FsNode_ind;
    intros p d o Hd; rewrite !_build_tree_eq; unfold depth_cut, gathers;
    assert (Hcut : (m <? d) = false) by (apply Z.ltb_ge; lia);
    rewrite Hcut;
    (destruct (is_excluded exclude_patterns p); [now intros [= <-]|]);
    (destruct (_is_ignored p pathspec_obj repo_root) as [[|]|x]; simpl;
     [now intros [= <-]| |discriminate]);
    try (now intros [= <-]).
  - intros [= <-]. simpl. now destruct (Z.to_nat (m - d)).
  - destruct readable; [|discriminate].
    destruct (gather_children _) as [cs|x] eqn:Hg; simpl; [|discriminate].
    intros [= <-].
    destruct (d <? m) eqn:Hlt.
    + apply Z.ltb_lt in Hlt.
      assert (Ek : Z.to_nat (m - d) = S (Z.to_nat (m - (d + 1)))) by lia.
      rewrite Ek.
      assert (Hvis : Forall2 (visit_cut (Z.to_nat (m - (d + 1))))
                (map (visit repo_root pathspec_obj None exclude_patterns p d) entries)
                (map (visit repo_root pathspec_obj (Some m) exclude_patterns p d)
                   entries)).
      { clear Hg. induction entries as [|ne es IHes]; simpl; constructor.
        - inversion IH as [|? ? Hne _]; subst.
          unfold visit_cut, visit, visit_name, visit_is_dir, visit_call. simpl.
          split; [reflexivity|]. split; [reflexivity|].
          intros o Ho. apply Hne; [lia|exact Ho].
        - apply IHes. now inversion IH. }
      rewrite gather_children_consumed in Hg |- *.
      rewrite (gather_Forall2 _ _ _ (consumed_Forall2 _ _ _ Hvis) _ Hg). simpl.
      now destruct cs.
    + apply Z.ltb_ge in Hlt. assert (Em : m - d = 0) by lia. rewrite Em.
      simpl. reflexivity.
Qed.

End ContentsAndDepth.

Lemma depth_limit_truncates_witness :
  _build_tree home_repo None (Some 1) DEFAULT_EXCLUDES home_repo repo_demo 0
  = Ok (option_map (truncate (Z.to_nat (1 - 0))) (Some demo_tree)).
Proof.
  refine (@depth_limit_truncates latin1 gitwildmatch home_repo None DEFAULT_EXCLUDES 1
            repo_demo home_repo 0 (Some demo_tree) _ _).
  - lia.
  - vm_compute. reflexivity.
Defined.
